(** * treeagent: rollouts to training samples

    A shallow embedding of [samples.go] (package [treeagent]) and the
    properties of its three stream stages: [RolloutSamples],
    [Uint8Samples] and [AllSamples].

    Conventions of the embedding.
    - A Go channel that a producer goroutine fills and then closes is the
      list of the values sent on it, in sending order, together with the
      way the producer ended: it closed the channel, or it panicked (a
      panic in a goroutine ends the whole Go program).
    - [float64] values are [spec_float]s of the Standard Library, the
      IEEE 754 values without NaN payloads; comparisons are [SFltb] and
      [SFeqb] (Go's [<] and [==]).
    - Go [int] values that are lengths and indices of slices are [nat];
      an [int] that the caller may choose freely is a [Z]. *)

From Stdlib Require Import List Bool Arith ZArith Lia Sorted.
From Stdlib Require Import Floats.SpecFloat.
Import ListNotations.

Set Implicit Arguments.

(** ** Runtime panics and stream endings *)

Inductive panic : Type :=
| DivideByZero        (* integer divide by zero *)
| NilDereference      (* invalid memory address or nil pointer dereference *)
| IndexOutOfRange     (* index out of range *)
| SliceOutOfRange     (* slice bounds out of range *)
| MakeSliceLen.       (* makeslice: len out of range *)

Inductive outcome : Type :=
| Closed                  (* the goroutine returned, [defer close(res)] ran *)
| Panicked (p : panic).   (* the goroutine panicked *)

Inductive result (A : Type) : Type :=
| Ok (a : A)
| Panic (p : panic).
Arguments Panic {A} p.

Definition bind {A B : Type} (r : result A) (k : A -> result B) : result B :=
  match r with
  | Ok a => k a
  | Panic p => Panic p
  end.

Notation "x <- r ;; k" := (bind r (fun x => k))
  (at level 61, r at next level, right associativity).

(** ** Floating-point values *)

Definition float64 : Type := spec_float.

(** Go's [x < y] and [x == y] on floats; both are false when an operand
    is NaN. *)
Definition flt (x y : float64) : bool := SFltb x y.
Definition feq (x y : float64) : bool := SFeqb x y.

(** The integer part of a float, rounded toward zero; NaN and the
    infinities have none. *)
Definition float_trunc (f : float64) : option Z :=
  match f with
  | S754_zero _ => Some 0%Z
  | S754_finite s m e =>
      Some (cond_Zopp s
              (if (0 <=? e)%Z then (Zpos m * 2 ^ e)%Z
               else (Zpos m / 2 ^ (- e))%Z))
  | S754_infinity _ => None
  | S754_nan => None
  end.

(** [float64(b)] for an integer [b]: the nearest binary64 value (exact
    for every [uint8]). *)
Definition float64_of_Z (z : Z) : float64 := binary_normalize 53 1024 z 0 false.

(** ** Slices *)

(** [s[i]]: panics when [i] is not below [len(s)]. *)
Definition index {A : Type} (s : list A) (i : nat) : result A :=
  match nth_error s i with
  | Some a => Ok a
  | None => Panic IndexOutOfRange
  end.

(** [s[lo:hi]]: panics unless [lo <= hi <= len(s)]. *)
Definition slice {A : Type} (s : list A) (lo hi : nat) : result (list A) :=
  if (lo <=? hi) && (hi <=? length s)
  then Ok (firstn (hi - lo) (skipn lo s))
  else Panic SliceOutOfRange.

(** ** Samples

    The [Sample] interface has two implementations in the package. *)

Inductive Sample : Type :=
| memorySample (features : list float64) (action : Z) (advantage : float64)
| uint8Sample (features : list Z) (action : Z) (advantage : float64).

Definition Feature (s : Sample) (idx : nat) : result float64 :=
  match s with
  | memorySample features _ _ => index features idx
  | uint8Sample features _ _ =>
      b <- index features idx ;; Ok (float64_of_Z b)
  end.

Definition Action (s : Sample) : Z :=
  match s with
  | memorySample _ action _ => action
  | uint8Sample _ action _ => action
  end.

Definition Advantage (s : Sample) : float64 :=
  match s with
  | memorySample _ _ advantage => advantage
  | uint8Sample _ _ advantage => advantage
  end.

(** ** Rollouts (the parts of anyrl, anyseq and anyvec that are used)

    A batch of a tape carries the packed vector of the present lanes
    and the presence mask; a vector is the list of its components. *)

Record Batch : Type := mkBatch {
  Packed : list float64;
  Present : list bool
}.

(** Modelled from the spec: [vecToFloats] is a helper of the package
    that is not in [samples.go]; the numeric unpacking helper that turns
    a packed vector into a [[]float64] of the same length and values. *)
Definition vecToFloats (v : list float64) : list float64 := v.

(** [Batch.NumPresent]: the number of [true] entries of the mask. *)
Definition NumPresent (b : Batch) : nat := count_occ bool_dec (Present b) true.

(** [anyrl.RolloutSet]: [ReadTape(0, -1)] of a tape delivers its batches
    in order and closes the channel. *)
Record RolloutSet : Type := mkRolloutSet {
  Inputs : list Batch;
  Actions : list Batch
}.

(** [anyrl.Rewards] is [[][]float64], indexed by lane and then timestep. *)
Definition Rewards : Type := list (list float64).

(** The scan behind [anyvec.MaxIndex]: [maxIdx] and [max] are the best
    index and value so far, [i] is the index of the head of [v]. *)
Fixpoint maxIndexFrom (v : list float64) (i maxIdx : nat) (max : float64) : nat :=
  match v with
  | [] => maxIdx
  | x :: rest =>
      if flt max x then maxIndexFrom rest (S i) i x
      else maxIndexFrom rest (S i) maxIdx max
  end.

(** Modelled from the spec: [anyvec.MaxIndex] is not part of the package
    sources; the index of the maximum value of the vector, ties broken by
    the lowest index (first maximum), and 0 for the empty vector. *)
Definition MaxIndex (v : list float64) : nat :=
  match v with
  | [] => 0
  | x :: rest => maxIndexFrom rest 1 0 x
  end.

(** ** RolloutSamples *)

(** The loop over the lanes of one timestep, [for lane, pres := range
    input.Present]; [i] counts the present lanes met so far.  It returns
    the samples sent and the panic that stopped the loop, if any. *)
Fixpoint lanes_loop (inValues outPacked : list float64)
    (numFeatures numActions : nat) (advantages : Rewards) (timestep : nat)
    (lane : nat) (present : list bool) (i : nat) : list Sample * option panic :=
  match present with
  | [] => ([], None)
  | pres :: rest =>
      if negb pres then
        lanes_loop inValues outPacked numFeatures numActions advantages
          timestep (S lane) rest i
      else
        match
          subIns <- slice inValues (i * numFeatures) ((i + 1) * numFeatures) ;;
          subOuts <- slice outPacked (i * numActions) ((i + 1) * numActions) ;;
          let action := MaxIndex subOuts in
          row <- index advantages lane ;;
          advantage <- index row timestep ;;
          Ok (memorySample subIns (Z.of_nat action) advantage)
        with
        | Panic p => ([], Some p)
        | Ok sample =>
            let '(sent, stop) :=
              lanes_loop inValues outPacked numFeatures numActions advantages
                timestep (S lane) rest (S i) in
            (sample :: sent, stop)
        end
  end.

(** The loop over the timesteps, [for input := range inChan]; [outChan]
    is what is left of the action tape.  Receiving from the closed
    [outChan] yields nil, and the first use of [output] then panics. *)
Fixpoint tape_loop (inChan outChan : list Batch) (advantages : Rewards)
    (timestep : nat) : list Sample * outcome :=
  match inChan with
  | [] => ([], Closed)
  | input :: inRest =>
      let output := hd_error outChan in
      let inValues := vecToFloats (Packed input) in
      let batch := NumPresent input in
      if batch =? 0 then ([], Panicked DivideByZero)
      else
        let numFeatures := length inValues / batch in
        match output with
        | None => ([], Panicked NilDereference)
        | Some out =>
            let numActions := length (Packed out) / batch in
            match lanes_loop inValues (Packed out) numFeatures numActions
                    advantages timestep 0 (Present input) 0 with
            | (sent, Some p) => (sent, Panicked p)
            | (sent, None) =>
                let '(later, o) :=
                  tape_loop inRest (tl outChan) advantages (S timestep) in
                (sent ++ later, o)
            end
        end
  end.

Definition RolloutSamples (r : RolloutSet) (advantages : Rewards)
  : list Sample * outcome :=
  tape_loop (Inputs r) (Actions r) advantages 0.

(** ** Uint8Samples *)

Section Quantize.

(** Go leaves the result of converting a floating-point value to an
    integer type that cannot represent it to the implementation; the
    conversion succeeds with some [uint8].  [unrepresentable] stands
    for that choice. *)
Variable unrepresentable : float64 -> Z.

(** [uint8(f)]: the fraction is discarded (truncation toward zero). *)
Definition uint8_of_float64 (f : float64) : Z :=
  match float_trunc f with
  | Some z =>
      if (0 <=? z)%Z && (z <=? 255)%Z then z
      else (unrepresentable f mod 256)%Z
  | None => (unrepresentable f mod 256)%Z
  end.

(** [s[i] = a] on a slice. *)
Fixpoint store {A : Type} (s : list A) (i : nat) (a : A) : result (list A) :=
  match s, i with
  | [], _ => Panic IndexOutOfRange
  | _ :: rest, 0 => Ok (a :: rest)
  | x :: rest, S i' => rest' <- store rest i' a ;; Ok (x :: rest')
  end.

(** [for i := 0; i < numFeatures; i++ { sample.features[i] =
    uint8(in.Feature(i)) }], with [todo] iterations left. *)
Fixpoint quantize_loop (inc : Sample) (todo i : nat) (features : list Z)
  : result (list Z) :=
  match todo with
  | 0 => Ok features
  | S todo' =>
      f <- Feature inc i ;;
      features' <- store features i (uint8_of_float64 f) ;;
      quantize_loop inc todo' (S i) features'
  end.

(** The body of the loop over [incoming], up to the send. *)
Definition quantize (numFeatures : Z) (inc : Sample) : result Sample :=
  features0 <- (if (numFeatures <? 0)%Z then Panic MakeSliceLen
                else Ok (repeat 0%Z (Z.to_nat numFeatures))) ;;
  let action := Action inc in
  let advantage := Advantage inc in
  features <- quantize_loop inc (Z.to_nat numFeatures) 0 features0 ;;
  Ok (uint8Sample features action advantage).

Fixpoint Uint8Samples (numFeatures : Z) (incoming : list Sample)
  : list Sample * outcome :=
  match incoming with
  | [] => ([], Closed)
  | inc :: rest =>
      match quantize numFeatures inc with
      | Panic p => ([], Panicked p)
      | Ok sample =>
          let '(sent, o) := Uint8Samples numFeatures rest in
          (sample :: sent, o)
      end
  end.

(** The bytes that the feature loop computes, without the slice they
    are stored into. *)
Fixpoint collect (inc : Sample) (todo i : nat) : result (list Z) :=
  match todo with
  | 0 => Ok []
  | S todo' =>
      f <- Feature inc i ;;
      rest <- collect inc todo' (S i) ;;
      Ok (uint8_of_float64 f :: rest)
  end.

End Quantize.

(** ** AllSamples *)

Definition AllSamples (ch : list Sample) : list Sample :=
  fold_left (fun res s => res ++ [s]) ch [].

(** ** The enumeration of present (lane, timestep) pairs

    These definitions follow the wording of the specification; the
    theorems below compare them with what the code computes. *)

(** The present lanes of a mask, ascending; [lane] is the index of the
    head of the mask. *)
Fixpoint lanes_from (lane : nat) (present : list bool) : list nat :=
  match present with
  | [] => []
  | pres :: rest =>
      if pres then lane :: lanes_from (S lane) rest
      else lanes_from (S lane) rest
  end.

(** Timestep-major, lane-minor; [t] is the timestep of the head batch. *)
Fixpoint pairs_from (t : nat) (ins : list Batch) : list (nat * nat) :=
  match ins with
  | [] => []
  | b :: rest =>
      map (fun lane => (lane, t)) (lanes_from 0 (Present b))
        ++ pairs_from (S t) rest
  end.

Definition present_pairs (r : RolloutSet) : list (nat * nat) :=
  pairs_from 0 (Inputs r).

(** The order of the enumeration: earlier timestep first, then lower lane. *)
Definition pair_before (p q : nat * nat) : Prop :=
  snd p < snd q \/ (snd p = snd q /\ fst p < fst q).

(** The number of present pairs of the whole rollout. *)
Definition total_present (r : RolloutSet) : nat :=
  list_sum (map NumPresent (Inputs r)).

(** The number of present lanes below [lane]. *)
Definition rank (present : list bool) (lane : nat) : nat :=
  count_occ bool_dec (firstn lane present) true.

(** The part of a packed vector that belongs to [lane]: the packed vector
    is cut into as many equal parts as there are present lanes. *)
Definition lane_chunk (packed : list float64) (present : list bool)
    (lane : nat) : list float64 :=
  let width := length packed / count_occ bool_dec present true in
  firstn width (skipn (rank present lane * width) packed).

(** [advantage[lane][timestep]], when the table has the entry. *)
Definition advantage_at (advantages : Rewards) (lane t : nat) : option float64 :=
  match nth_error advantages lane with
  | Some row => nth_error row t
  | None => None
  end.

(** The sample of a present lane at a timestep. *)
Definition sample_at (r : RolloutSet) (advantages : Rewards) (p : nat * nat)
  : option Sample :=
  let '(lane, t) := p in
  match nth_error (Inputs r) t, nth_error (Actions r) t,
        advantage_at advantages lane t with
  | Some input, Some output, Some a =>
      Some (memorySample
              (lane_chunk (Packed input) (Present input) lane)
              (Z.of_nat (MaxIndex (lane_chunk (Packed output) (Present input) lane)))
              a)
  | _, _, _ => None
  end.

(** What the lane loop is expected to send for a present lane. *)
Definition lane_sample (inValues outPacked : list float64)
    (numFeatures numActions : nat) (advantages : Rewards) (t : nat)
    (present : list bool) (lane : nat) : option Sample :=
  match advantage_at advantages lane t with
  | Some a =>
      Some (memorySample
              (firstn numFeatures (skipn (rank present lane * numFeatures) inValues))
              (Z.of_nat (MaxIndex
                 (firstn numActions (skipn (rank present lane * numActions) outPacked))))
              a)
  | None => None
  end.

(** A rollout that [RolloutSamples] can walk to the end. *)
Definition well_formed (r : RolloutSet) (advantages : Rewards) : Prop :=
  length (Inputs r) <= length (Actions r)
  /\ Forall (fun input => NumPresent input <> 0) (Inputs r)
  /\ Forall (fun p => advantage_at advantages (fst p) (snd p) <> None)
       (present_pairs r).

(** [a] is the position of the first maximum of [v]: no entry is greater
    than [v[a]], and no earlier entry is as great. *)
Definition first_max (v : list float64) (a : nat) : Prop :=
  exists m, nth_error v a = Some m
    /\ forall j x, nth_error v j = Some x ->
         flt m x = false /\ (j < a -> SFleb m x = false).

(** ** Examples: two lanes and two timesteps, lane 1 absent at timestep 1 *)

Definition fl (z : Z) : float64 := float64_of_Z z.

Definition example_rollout : RolloutSet :=
  mkRolloutSet
    [ mkBatch [fl 1; fl 2; fl 3; fl 4; fl 5; fl 6] [true; true];
      mkBatch [fl 7; fl 8; fl 9] [true; false] ]
    [ mkBatch [fl 0; fl 1; fl 5; fl 5] [true; true];
      mkBatch [fl 2; fl 1] [true; false] ].

Definition example_advantages : Rewards :=
  [ [fl 10; fl 5]; [fl (-2)] ].

(** The rollout of the example with the action batch of timestep 1
    missing. *)
Definition short_rollout : RolloutSet :=
  mkRolloutSet (Inputs example_rollout) (firstn 1 (Actions example_rollout)).

(** A rollout whose second batch has no present lane. *)
Definition absent_rollout : RolloutSet :=
  mkRolloutSet
    [ mkBatch [fl 1; fl 2] [true; true]; mkBatch [] [false; false] ]
    [ mkBatch [fl 0; fl 1; fl 5; fl 5] [true; true]; mkBatch [] [false; false] ].

(** ** Statements about bytes and floats *)

(** A float that compares equal to the float of an integer of [0, 255]. *)
Definition uint8_valued (f : float64) : Prop :=
  exists n, (0 <= n <= 255)%Z /\ feq f (float64_of_Z n) = true.

(** [float64(n)] is a positive float or [+0] whose integer part is [n]. *)
Definition byte_exact (n : Z) : bool :=
  match float64_of_Z n with
  | S754_zero false => (n =? 0)%Z
  | S754_finite false m e =>
      match float_trunc (S754_finite false m e) with
      | Some z => (z =? n)%Z
      | None => false
      end
  | _ => false
  end.

(** The statement of C7 as it is worded: every byte stored in an output
    sample is the truncation of the input feature, reduced modulo 2^8. *)
Definition stores_wrapped_truncation (unrepresentable : float64 -> Z) : Prop :=
  forall numFeatures incoming n out idx,
    nth_error (fst (Uint8Samples unrepresentable numFeatures incoming)) n
      = Some out ->
    idx < Z.to_nat numFeatures ->
    exists inc f z features,
      nth_error incoming n = Some inc
      /\ Feature inc idx = Ok f
      /\ float_trunc f = Some z
      /\ out = uint8Sample features (Action inc) (Advantage inc)
      /\ nth_error features idx = Some (z mod 2 ^ 8)%Z.

(** ** Definitions for the further properties *)

(** The feature slice that a dense sample holds. *)
Definition memory_features (s : Sample) : list float64 :=
  match s with
  | memorySample features _ _ => features
  | uint8Sample _ _ _ => []
  end.

(** The packed values of a batch that the lane loop hands out: as many
    whole parts as there are present lanes. *)
Definition packed_used (b : Batch) : list float64 :=
  firstn (NumPresent b * (length (Packed b) / NumPresent b)) (Packed b).

(** A sample has a feature at every index below [numFeatures]. *)
Definition has_features (numFeatures : Z) (inc : Sample) : Prop :=
  forall idx, idx < Z.to_nat numFeatures -> exists f, Feature inc idx = Ok f.

(** The example with the advantage row of lane 1 missing. *)
Definition short_advantages : Rewards := [ [fl 10; fl 5] ].

(** The example with a surplus action batch. *)
Definition long_rollout : RolloutSet :=
  mkRolloutSet (Inputs example_rollout)
    (Actions example_rollout ++ [mkBatch [fl 3] [true]]).

(** The example table with entries that no present pair uses. *)
Definition padded_advantages : Rewards :=
  [ [fl 10; fl 5; fl 77]; [fl (-2); fl 99]; [fl 1] ].

(** What is known at the batch where a run panics: [sent] is what was
    sent, [t] the timestep of the batch. *)
Definition panic_site (r : RolloutSet) (advantages : Rewards)
    (sent : list Sample) (p : panic) (t : nat) (input : Batch) : Prop :=
  match p with
  | DivideByZero =>
      NumPresent input = 0
      /\ length sent = length (pairs_from 0 (firstn t (Inputs r)))
  | NilDereference =>
      NumPresent input <> 0
      /\ nth_error (Actions r) t = None
      /\ length sent = length (pairs_from 0 (firstn t (Inputs r)))
  | IndexOutOfRange =>
      exists lane,
        nth_error (present_pairs r) (length sent) = Some (lane, t)
        /\ advantage_at advantages lane t = None
  | SliceOutOfRange => False
  | MakeSliceLen => False
  end.

(** * Proofs *)

(** ** Slices and chunks *)

Lemma slice_chunk (A : Type) (s sub : list A) (i n : nat) :
  slice s (i * n) ((i + 1) * n) = Ok sub ->
  sub = firstn n (skipn (i * n) s).
Proof.
  unfold slice.
  destruct ((i * n <=? (i + 1) * n) && ((i + 1) * n <=? length s)); [|discriminate].
  intros H; injection H as <-.
  f_equal. lia.
Qed.

(** The bounds of [s[i*n : (i+1)*n]] are in range whenever [n] is
    [len(s) / batch] and [i] is below [batch]. *)
Lemma slice_in_bounds (A : Type) (s : list A) (i batch : nat) :
  i < batch ->
  exists sub, slice s (i * (length s / batch)) ((i + 1) * (length s / batch)) = Ok sub.
Proof.
  intros Hi. unfold slice.
  assert (Hb : batch <> 0) by lia.
  pose proof (Nat.Div0.mul_div_le (length s) batch) as Hle.
  assert (H1 : i * (length s / batch) <= (i + 1) * (length s / batch)) by nia.
  assert (H2 : (i + 1) * (length s / batch) <= length s) by nia.
  apply Nat.leb_le in H1. apply Nat.leb_le in H2.
  rewrite H1, H2. simpl. eauto.
Qed.

Lemma count_occ_snoc (present : list bool) (b : bool) :
  count_occ bool_dec (present ++ [b]) true =
  count_occ bool_dec present true + (if b then 1 else 0).
Proof.
  rewrite count_occ_app. simpl.
  destruct b; destruct (bool_dec _ _); congruence || lia.
Qed.

Lemma rank_at_length (pre rest : list bool) :
  rank (pre ++ rest) (length pre) = count_occ bool_dec pre true.
Proof.
  unfold rank. rewrite firstn_app, Nat.sub_diag, firstn_all. simpl.
  now rewrite app_nil_r.
Qed.

(** ** The lanes of one timestep *)

Lemma map_Some_length (A B : Type) (f : B -> option A) (l : list A) (l' : list B) :
  map Some l = map f l' -> length l = length l'.
Proof.
  intros H. apply (f_equal (@length _)) in H. now rewrite !length_map in H.
Qed.

Lemma lanes_loop_sent inValues outPacked nF nA advantages t :
  forall present pre lane i sent stop,
    lane = length pre ->
    i = count_occ bool_dec pre true ->
    lanes_loop inValues outPacked nF nA advantages t lane present i = (sent, stop) ->
    map Some sent =
      map (lane_sample inValues outPacked nF nA advantages t (pre ++ present))
          (firstn (length sent) (lanes_from lane present))
    /\ (stop = None -> length sent = length (lanes_from lane present)).
Proof.
  induction present as [|pres rest IH]; intros pre lane i sent stop Hlane Hi Hrun.
  - simpl in Hrun. injection Hrun as <- <-. simpl. auto.
  - simpl in Hrun. destruct pres; simpl in Hrun.
    + destruct (slice inValues (i * nF) ((i + 1) * nF)) as [subIns|p] eqn:Hin;
        simpl in Hrun; [|injection Hrun as <- <-; simpl; split; [reflexivity|discriminate]].
      destruct (slice outPacked (i * nA) ((i + 1) * nA)) as [subOuts|p] eqn:Hout;
        simpl in Hrun; [|injection Hrun as <- <-; simpl; split; [reflexivity|discriminate]].
      unfold index in Hrun.
      destruct (nth_error advantages lane) as [row|] eqn:Hrow;
        simpl in Hrun; [|injection Hrun as <- <-; simpl; split; [reflexivity|discriminate]].
      destruct (nth_error row t) as [a|] eqn:Ha;
        simpl in Hrun; [|injection Hrun as <- <-; simpl; split; [reflexivity|discriminate]].
      destruct (lanes_loop inValues outPacked nF nA advantages t (S lane) rest (S i))
        as [sent' stop'] eqn:Hrest.
      injection Hrun as <- <-.
      apply (IH (pre ++ [true])) in Hrest.
      * rewrite <- app_assoc in Hrest. simpl in Hrest.
        destruct Hrest as [Hmap Hlen]. simpl. split.
        -- f_equal; [|exact Hmap].
           unfold lane_sample, advantage_at. rewrite Hrow, Ha.
           subst lane. rewrite rank_at_length, <- Hi.
           apply slice_chunk in Hin. apply slice_chunk in Hout.
           now subst subIns subOuts.
        -- intros Hs. now rewrite (Hlen Hs).
      * rewrite length_app. simpl. lia.
      * rewrite count_occ_snoc. lia.
    + apply (IH (pre ++ [false])) in Hrun.
      * now rewrite <- app_assoc in Hrun.
      * rewrite length_app. simpl. lia.
      * rewrite count_occ_snoc. lia.
Qed.

(** The lane loop never slices out of range, and stops early only on a
    missing advantage entry. *)
Lemma lanes_loop_stop inValues outPacked advantages t batch :
  forall present lane i sent stop,
    i + count_occ bool_dec present true = batch ->
    lanes_loop inValues outPacked (length inValues / batch)
      (length outPacked / batch) advantages t lane present i = (sent, stop) ->
    match stop with
    | None => Forall (fun l => advantage_at advantages l t <> None)
                (lanes_from lane present)
    | Some p => p = IndexOutOfRange
                /\ exists l, nth_error (lanes_from lane present) (length sent) = Some l
                             /\ advantage_at advantages l t = None
    end.
Proof.
  induction present as [|pres rest IH]; intros lane i sent stop Hb Hrun.
  - simpl in Hrun. injection Hrun as <- <-. constructor.
  - simpl in Hrun. destruct pres; simpl in Hrun.
    + simpl in Hb. destruct (bool_dec true true) as [_|n]; [|congruence].
      destruct (@slice_in_bounds _ inValues i batch) as [subIns Hin]; [lia|].
      destruct (@slice_in_bounds _ outPacked i batch) as [subOuts Hout]; [lia|].
      rewrite Hin, Hout in Hrun. simpl in Hrun. unfold index in Hrun.
      destruct (nth_error advantages lane) as [row|] eqn:Hrow; simpl in Hrun.
      2:{ injection Hrun as <- <-. split; [reflexivity|]. exists lane. simpl.
          split; [reflexivity|]. unfold advantage_at. now rewrite Hrow. }
      destruct (nth_error row t) as [a|] eqn:Ha; simpl in Hrun.
      2:{ injection Hrun as <- <-. split; [reflexivity|]. exists lane. simpl.
          split; [reflexivity|]. unfold advantage_at. now rewrite Hrow. }
      destruct (lanes_loop inValues outPacked (length inValues / batch)
                  (length outPacked / batch) advantages t (S lane) rest (S i))
        as [sent' stop'] eqn:Hrest.
      injection Hrun as <- <-.
      apply IH in Hrest; [|lia].
      destruct stop' as [p|].
      * destruct Hrest as [-> [l [Hl Hadv]]]. split; [reflexivity|].
        exists l. simpl. auto.
      * simpl. constructor; [|exact Hrest].
        unfold advantage_at. rewrite Hrow, Ha. discriminate.
    + simpl in Hb. destruct (bool_dec false true) as [e|_]; [discriminate|].
      apply IH in Hrun; [|lia]. exact Hrun.
Qed.

Lemma lanes_from_length (present : list bool) :
  forall lane, length (lanes_from lane present) = count_occ bool_dec present true.
Proof.
  induction present as [|pres rest IH]; intros lane; simpl; [reflexivity|].
  destruct pres; simpl.
  - destruct (bool_dec true true); [now rewrite IH|congruence].
  - destruct (bool_dec false true); [discriminate|apply IH].
Qed.

Lemma lanes_from_In (present : list bool) :
  forall lane l,
    In l (lanes_from lane present) <->
    lane <= l /\ nth_error present (l - lane) = Some true.
Proof.
  induction present as [|pres rest IH]; intros lane l; simpl.
  - split; [tauto|]. intros [_ H]. destruct (l - lane); discriminate.
  - assert (Hstep : In l (lanes_from (S lane) rest) <->
                    lane < l /\ nth_error (pres :: rest) (l - lane) = Some true).
    { rewrite IH. split; intros [H1 H2]; (split; [lia|]).
      - replace (l - lane) with (S (l - S lane)) by lia. exact H2.
      - replace (l - lane) with (S (l - S lane)) in H2 by lia. exact H2. }
    destruct pres; simpl; rewrite Hstep.
    + split.
      * intros [<-|[H1 H2]]; [rewrite Nat.sub_diag; auto|split; [lia|exact H2]].
      * intros [H1 H2]. destruct (Nat.eq_dec lane l) as [e|n]; [auto|right].
        split; [lia|exact H2].
    + split.
      * intros [H1 H2]. split; [lia|exact H2].
      * intros [H1 H2]. split; [|exact H2].
        destruct (Nat.eq_dec lane l) as [<-|n]; [|lia].
        rewrite Nat.sub_diag in H2. discriminate.
Qed.

Lemma lanes_from_sorted (present : list bool) :
  forall lane, StronglySorted lt (lanes_from lane present).
Proof.
  induction present as [|pres rest IH]; intros lane; simpl; [constructor|].
  destruct pres; [|apply IH].
  constructor; [apply IH|].
  apply Forall_forall. intros l Hl. apply lanes_from_In in Hl. lia.
Qed.

(** ** The walk over the tapes *)

Lemma skipn_cons_nth (A : Type) (l : list A) :
  forall t a rest,
    skipn t l = a :: rest -> nth_error l t = Some a /\ skipn (S t) l = rest.
Proof.
  induction l as [|x l IH]; intros t a rest H.
  - destruct t; discriminate.
  - destruct t as [|t]; simpl in H.
    + injection H as -> ->. auto.
    + apply IH in H. exact H.
Qed.

Lemma hd_error_skipn (A : Type) (l : list A) :
  forall t, hd_error (skipn t l) = nth_error l t.
Proof.
  induction l as [|x l IH]; intros [|t]; simpl; auto.
Qed.

Lemma tl_skipn (A : Type) (l : list A) :
  forall t, tl (skipn t l) = skipn (S t) l.
Proof.
  induction l as [|x l IH]; intros [|t]; simpl; auto.
Qed.

Lemma sample_at_lane r advantages t input output lane :
  nth_error (Inputs r) t = Some input ->
  nth_error (Actions r) t = Some output ->
  sample_at r advantages (lane, t) =
  lane_sample (Packed input) (Packed output)
    (length (Packed input) / NumPresent input)
    (length (Packed output) / NumPresent input) advantages t (Present input) lane.
Proof.
  intros Hin Hout. unfold sample_at, lane_sample. rewrite Hin, Hout.
  destruct (advantage_at advantages lane t); reflexivity.
Qed.

Lemma firstn_app_short (A : Type) (n : nat) (l1 l2 : list A) :
  n <= length l1 -> firstn n (l1 ++ l2) = firstn n l1.
Proof.
  intros H. rewrite firstn_app.
  replace (n - length l1) with 0 by lia. simpl. apply app_nil_r.
Qed.

Lemma firstn_app_long (A : Type) (n : nat) (l1 l2 : list A) :
  firstn (length l1 + n) (l1 ++ l2) = l1 ++ firstn n l2.
Proof.
  rewrite firstn_app. rewrite firstn_all2 by lia.
  f_equal. f_equal. lia.
Qed.

(** What is sent is, sample by sample, the sample of the next present
    pair; a run that closes the channel has sent one for every pair. *)
Lemma tape_loop_sent r advantages :
  forall inChan t sent o,
    inChan = skipn t (Inputs r) ->
    tape_loop inChan (skipn t (Actions r)) advantages t = (sent, o) ->
    map Some sent =
      map (sample_at r advantages) (firstn (length sent) (pairs_from t inChan))
    /\ (o = Closed -> length sent = length (pairs_from t inChan)).
Proof.
  induction inChan as [|input inRest IH]; intros t sent o Hin Hrun.
  - simpl in Hrun. injection Hrun as <- <-. simpl. auto.
  - symmetry in Hin. apply skipn_cons_nth in Hin. destruct Hin as [Hnth Hskip].
    simpl in Hrun.
    destruct (NumPresent input =? 0);
      [injection Hrun as <- <-; simpl; split; [reflexivity|discriminate]|].
    rewrite hd_error_skipn, tl_skipn in Hrun.
    destruct (nth_error (Actions r) t) as [out|] eqn:Hout;
      [|injection Hrun as <- <-; simpl; split; [reflexivity|discriminate]].
    destruct (lanes_loop _ _ _ _ _ _ _ _ _) as [sentl stop] eqn:Hlanes.
    apply (@lanes_loop_sent _ _ _ _ _ _ _ []) in Hlanes; [|reflexivity..].
    simpl in Hlanes. destruct Hlanes as [Hmap Hlen].
    assert (Hpairs : forall lanes,
      map (lane_sample (Packed input) (Packed out)
             (length (Packed input) / NumPresent input)
             (length (Packed out) / NumPresent input) advantages t (Present input))
          lanes
      = map (sample_at r advantages) (map (fun lane => (lane, t)) lanes)).
    { intros lanes. rewrite map_map. apply map_ext. intros lane.
      symmetry. now apply sample_at_lane. }
    destruct stop as [p|].
    + injection Hrun as <- <-. split; [|discriminate]. simpl.
      pose proof (map_Some_length _ _ _ Hmap) as Hl.
      rewrite length_firstn in Hl.
      rewrite firstn_app_short by (rewrite length_map; lia).
      rewrite firstn_map, <- Hpairs. exact Hmap.
    + specialize (Hlen eq_refl).
      destruct (tape_loop inRest (skipn (S t) (Actions r)) advantages (S t))
        as [later o'] eqn:Hlater.
      injection Hrun as <- <-.
      apply IH in Hlater; [|now symmetry].
      destruct Hlater as [Hmap' Hlen']. simpl.
      rewrite Hlen, firstn_all in Hmap.
      rewrite !length_app, Hlen.
      rewrite <- (length_map (fun lane => (lane, t))).
      rewrite firstn_app_long. rewrite !map_app. split.
      * rewrite <- Hpairs. now f_equal.
      * intros Ho. now rewrite (Hlen' Ho).
Qed.

Lemma pairs_from_length (ins : list Batch) :
  forall t, length (pairs_from t ins) = list_sum (map NumPresent ins).
Proof.
  induction ins as [|b rest IH]; intros t; simpl; [reflexivity|].
  rewrite length_app, length_map, lanes_from_length, IH. reflexivity.
Qed.

Lemma pairs_from_In (ins : list Batch) :
  forall t0 lane t,
    In (lane, t) (pairs_from t0 ins) <->
    t0 <= t /\ exists b, nth_error ins (t - t0) = Some b
                         /\ nth_error (Present b) lane = Some true.
Proof.
  induction ins as [|b rest IH]; intros t0 lane t; simpl.
  - split; [tauto|]. intros [_ [b [H _]]]. destruct (t - t0); discriminate.
  - rewrite in_app_iff, in_map_iff, IH. split.
    + intros [[l [Heq Hl]]|[Ht [b' [Hb' Hp]]]].
      * injection Heq as -> ->. apply lanes_from_In in Hl.
        rewrite Nat.sub_0_r in Hl. split; [lia|].
        exists b. rewrite Nat.sub_diag. simpl. tauto.
      * split; [lia|]. exists b'.
        replace (t - t0) with (S (t - S t0)) by lia. simpl. auto.
    + intros [Ht [b' [Hb' Hp]]].
      destruct (Nat.eq_dec t t0) as [->|Hne].
      * left. rewrite Nat.sub_diag in Hb'. simpl in Hb'. injection Hb' as ->.
        exists lane. split; [reflexivity|].
        apply lanes_from_In. rewrite Nat.sub_0_r. split; [lia|exact Hp].
      * right. split; [lia|]. exists b'.
        replace (t - t0) with (S (t - S t0)) in Hb' by lia. simpl in Hb'. auto.
Qed.

Lemma pairs_from_sorted (ins : list Batch) :
  forall t, StronglySorted pair_before (pairs_from t ins).
Proof.
  induction ins as [|b rest IH]; intros t; simpl; [constructor|].
  pose proof (lanes_from_sorted (Present b) 0) as Hs.
  induction Hs as [|l ls Hs IHs Hall]; simpl; [apply IH|].
  constructor; [exact IHs|].
  apply Forall_app. split.
  - apply Forall_forall. intros [l' t'] Hin. apply in_map_iff in Hin.
    destruct Hin as [l'' [Heq Hin]]. injection Heq as -> ->.
    rewrite Forall_forall in Hall. right. simpl. split; [reflexivity|now apply Hall].
  - apply Forall_forall. intros [l' t'] Hin. apply pairs_from_In in Hin.
    left. simpl. lia.
Qed.

Lemma StronglySorted_nth (A : Type) (R : A -> A -> Prop) (l : list A) :
  StronglySorted R l ->
  forall i j a b,
    i < j -> nth_error l i = Some a -> nth_error l j = Some b -> R a b.
Proof.
  induction 1 as [|x l Hs IH Hall]; intros i j a b Hij Hi Hj.
  - destruct i; discriminate.
  - destruct j as [|j]; [lia|]. simpl in Hj. destruct i as [|i].
    + simpl in Hi. injection Hi as ->.
      rewrite Forall_forall in Hall. apply Hall. eapply nth_error_In; eauto.
    + simpl in Hi. apply (IH i j); auto. lia.
Qed.

(** ** RolloutSamples against the enumeration *)

Lemma RolloutSamples_sent r advantages sent o :
  RolloutSamples r advantages = (sent, o) ->
  map Some sent =
    map (sample_at r advantages) (firstn (length sent) (present_pairs r))
  /\ (o = Closed -> length sent = length (present_pairs r)).
Proof.
  intros H. unfold RolloutSamples in H.
  now apply (@tape_loop_sent r advantages (Inputs r) 0).
Qed.

Lemma map_Some_nth (A B : Type) (f : B -> option A) (l : list A) (l' : list B) :
  map Some l = map f l' ->
  forall n a, nth_error l n = Some a ->
    exists b, nth_error l' n = Some b /\ f b = Some a.
Proof.
  intros H n a Hn.
  apply (map_nth_error Some) in Hn. rewrite H in Hn.
  rewrite nth_error_map in Hn.
  destruct (nth_error l' n) as [b|]; [|discriminate].
  simpl in Hn. exists b. split; [reflexivity|]. now injection Hn.
Qed.

(** The [n]-th sample sent is the sample of the [n]-th present pair. *)
Lemma RolloutSamples_nth r advantages n s :
  nth_error (fst (RolloutSamples r advantages)) n = Some s ->
  exists p, nth_error (present_pairs r) n = Some p
            /\ sample_at r advantages p = Some s.
Proof.
  destruct (RolloutSamples r advantages) as [sent o] eqn:Hrun. simpl.
  intros Hn. apply RolloutSamples_sent in Hrun. destruct Hrun as [Hmap _].
  destruct (map_Some_nth _ _ _ Hmap _ Hn) as [p [Hp Hs]].
  exists p. split; [|exact Hs].
  rewrite nth_error_firstn in Hp.
  destruct (n <? length sent); [exact Hp|discriminate].
Qed.

Lemma sample_at_inv r advantages lane t s :
  sample_at r advantages (lane, t) = Some s ->
  exists input output a,
    nth_error (Inputs r) t = Some input
    /\ nth_error (Actions r) t = Some output
    /\ advantage_at advantages lane t = Some a
    /\ s = memorySample
             (lane_chunk (Packed input) (Present input) lane)
             (Z.of_nat (MaxIndex (lane_chunk (Packed output) (Present input) lane)))
             a.
Proof.
  unfold sample_at.
  destruct (nth_error (Inputs r) t) as [input|]; [|discriminate].
  destruct (nth_error (Actions r) t) as [output|]; [|discriminate].
  destruct (advantage_at advantages lane t) as [a|]; [|discriminate].
  intros H. injection H as <-. exists input, output, a. auto.
Qed.

(** ** The order of floats and the first maximum *)

Ltac compare_cases :=
  repeat match goal with
  | |- context [Z.compare ?a ?b] => destruct (Z.compare_spec a b)
  | |- context [Pos.compare_cont Eq ?a ?b] =>
      change (Pos.compare_cont Eq a b) with (Pos.compare a b);
      destruct (Pos.compare_spec a b)
  end.

Ltac float_cases a b c :=
  unfold flt, SFltb, SFleb, SFcompare;
  destruct a as [[|]|[|]| |[|] ? ?], b as [[|]|[|]| |[|] ? ?],
           c as [[|]|[|]| |[|] ? ?];
  simpl; try discriminate; try reflexivity;
  compare_cases; simpl; intros; try discriminate; try reflexivity;
  subst; try lia.

Lemma flt_trans (a b c : float64) :
  flt a b = true -> flt b c = true -> flt a c = true.
Proof. float_cases a b c. Qed.

Lemma flt_fle_trans (a b c : float64) :
  flt a b = true -> SFleb b c = true -> flt a c = true.
Proof. float_cases a b c. Qed.

Lemma flt_irrefl (a : float64) : flt a a = false.
Proof.
  unfold flt, SFltb, SFcompare.
  destruct a as [[|]|[|]| |[|] m e]; simpl; try reflexivity;
    rewrite Z.compare_refl;
    change (Pos.compare_cont Eq m m) with (Pos.compare m m);
    rewrite Pos.compare_refl; reflexivity.
Qed.

Lemma maxIndexFrom_first_max :
  forall rest pre i maxIdx max,
    length pre = i ->
    nth_error pre maxIdx = Some max ->
    (forall j x, nth_error pre j = Some x ->
       flt max x = false /\ (j < maxIdx -> SFleb max x = false)) ->
    first_max (pre ++ rest) (maxIndexFrom rest i maxIdx max).
Proof.
  induction rest as [|x rest IH]; intros pre i maxIdx max Hlen Hmax Hinv.
  - simpl. rewrite app_nil_r. exists max. auto.
  - simpl. replace (pre ++ x :: rest) with ((pre ++ [x]) ++ rest)
      by (rewrite <- app_assoc; reflexivity).
    assert (Hlt : maxIdx < length pre) by (apply nth_error_Some; congruence).
    destruct (flt max x) eqn:Hx.
    + apply IH.
      * rewrite length_app. simpl. lia.
      * rewrite nth_error_app2 by lia. subst i. now rewrite Nat.sub_diag.
      * intros j y Hj. destruct (Nat.lt_ge_cases j (length pre)) as [Hjl|Hjl].
        -- rewrite nth_error_app1 in Hj by exact Hjl.
           destruct (Hinv j y Hj) as [Hy _]. split.
           ++ destruct (flt x y) eqn:Hxy; [|reflexivity].
              rewrite (flt_trans _ _ _ Hx Hxy) in Hy. discriminate.
           ++ intros _. destruct (SFleb x y) eqn:Hxy; [|reflexivity].
              rewrite (flt_fle_trans _ _ _ Hx Hxy) in Hy. discriminate.
        -- rewrite nth_error_app2 in Hj by exact Hjl.
           destruct (j - length pre) as [|k] eqn:Hk;
             [|destruct k; discriminate].
           simpl in Hj. injection Hj as <-. split; [apply flt_irrefl|lia].
    + apply IH.
      * rewrite length_app. simpl. lia.
      * now rewrite nth_error_app1 by exact Hlt.
      * intros j y Hj. destruct (Nat.lt_ge_cases j (length pre)) as [Hjl|Hjl].
        -- rewrite nth_error_app1 in Hj by exact Hjl. now apply Hinv.
        -- rewrite nth_error_app2 in Hj by exact Hjl.
           destruct (j - length pre) as [|k] eqn:Hk;
             [|destruct k; discriminate].
           simpl in Hj. injection Hj as <-. split; [exact Hx|lia].
Qed.

(** [MaxIndex] returns the position of the first maximum. *)
Lemma MaxIndex_first_max (v : list float64) :
  v <> [] -> first_max v (MaxIndex v).
Proof.
  destruct v as [|x rest]; [congruence|]. intros _. unfold MaxIndex.
  apply (maxIndexFrom_first_max rest [x]); [reflexivity..|].
  intros [|[|j]] y Hj; simpl in Hj; try discriminate.
  injection Hj as <-. split; [apply flt_irrefl|lia].
Qed.

(** * RolloutSamples: order, advantages, count, actions *)

(** A vector with a single greatest entry has its first maximum there. *)
Lemma first_max_unique (v : list float64) (a k : nat) (mk : float64) :
  first_max v a ->
  nth_error v k = Some mk ->
  (forall j x, j <> k -> nth_error v j = Some x -> flt x mk = true) ->
  a = k.
Proof.
  intros [m [Ha Hmax]] Hk Hgreatest.
  destruct (Nat.eq_dec a k) as [e|n]; [exact e|exfalso].
  pose proof (Hgreatest a m n Ha) as Hlt.
  destruct (Hmax k mk Hk) as [Hge _]. congruence.
Qed.

(** The run on the example: three samples, for (lane 0, t 0),
    (lane 1, t 0) and (lane 0, t 1); the tie of lane 1 goes to action 0. *)
Example example_run :
  RolloutSamples example_rollout example_advantages =
  ([memorySample [fl 1; fl 2; fl 3] 1 (fl 10);
    memorySample [fl 4; fl 5; fl 6] 0 (fl (-2));
    memorySample [fl 7; fl 8; fl 9] 0 (fl 5)], Closed)
  /\ present_pairs example_rollout = [(0, 0); (1, 0); (0, 1)].
Proof. split; reflexivity. Qed.

(** C1. The samples sent by [RolloutSamples] follow the timestep-major,
    lane-minor enumeration of the present pairs: the [n]-th sample is the
    sample of the [n]-th pair of [present_pairs]; that list holds exactly
    the pairs that a presence mask marks present, strictly ascending by
    timestep and then by lane, so that every pair of timestep [t] comes
    before every pair of a later timestep. *)
Theorem RolloutSamples_order (r : RolloutSet) (advantages : Rewards) :
  (forall n s,
      nth_error (fst (RolloutSamples r advantages)) n = Some s ->
      exists p, nth_error (present_pairs r) n = Some p
                /\ sample_at r advantages p = Some s)
  /\ (forall lane t,
         In (lane, t) (present_pairs r) <->
         exists b, nth_error (Inputs r) t = Some b
                   /\ nth_error (Present b) lane = Some true)
  /\ StronglySorted pair_before (present_pairs r)
  /\ (forall n n' p p',
         nth_error (present_pairs r) n = Some p ->
         nth_error (present_pairs r) n' = Some p' ->
         snd p < snd p' -> n < n').
Proof.
  split; [|split; [|split]].
  - intros n s. apply RolloutSamples_nth.
  - intros lane t. unfold present_pairs. rewrite pairs_from_In.
    rewrite Nat.sub_0_r. split; [tauto|]. intros H. split; [lia|exact H].
  - apply pairs_from_sorted.
  - intros n n' p p' Hn Hn' Hlt.
    destruct (Nat.lt_ge_cases n n') as [H|H]; [exact H|exfalso].
    destruct (Nat.eq_dec n n') as [->|Hne].
    + rewrite Hn in Hn'. injection Hn' as ->. lia.
    + assert (Hb : pair_before p' p).
      { apply (StronglySorted_nth (pairs_from_sorted (Inputs r) 0)) with n' n;
          auto. lia. }
      unfold pair_before in Hb. lia.
Qed.

Lemma RolloutSamples_order_witness :
  nth_error (fst (RolloutSamples example_rollout example_advantages)) 2
    = Some (memorySample [fl 7; fl 8; fl 9] 0 (fl 5))
  /\ exists p,
       nth_error (present_pairs example_rollout) 2 = Some p
       /\ sample_at example_rollout example_advantages p
          = Some (memorySample [fl 7; fl 8; fl 9] 0 (fl 5)).
Proof.
  split; [reflexivity|].
  apply (proj1 (RolloutSamples_order example_rollout example_advantages) 2).
  reflexivity.
Defined.

(** C2. A sample sent by [RolloutSamples] carries the advantage of the
    pair it comes from: for the [n]-th sample, made from the [n]-th
    present pair [(lane, t)], [Advantage()] is [advantages[lane][t]]. *)
Theorem RolloutSamples_advantage (r : RolloutSet) (advantages : Rewards)
    (n : nat) (s : Sample) :
  nth_error (fst (RolloutSamples r advantages)) n = Some s ->
  exists lane t row,
    nth_error (present_pairs r) n = Some (lane, t)
    /\ nth_error advantages lane = Some row
    /\ nth_error row t = Some (Advantage s).
Proof.
  intros Hn. apply RolloutSamples_nth in Hn.
  destruct Hn as [[lane t] [Hp Hs]].
  apply sample_at_inv in Hs.
  destruct Hs as [input [output [a [_ [_ [Ha ->]]]]]].
  unfold advantage_at in Ha.
  destruct (nth_error advantages lane) as [row|] eqn:Hrow; [|discriminate].
  exists lane, t, row. simpl. auto.
Qed.

Lemma RolloutSamples_advantage_witness :
  nth_error (fst (RolloutSamples example_rollout example_advantages)) 1
    = Some (memorySample [fl 4; fl 5; fl 6] 0 (fl (-2)))
  /\ exists lane t row,
       nth_error (present_pairs example_rollout) 1 = Some (lane, t)
       /\ nth_error example_advantages lane = Some row
       /\ nth_error row t = Some (fl (-2)).
Proof.
  split; [reflexivity|].
  apply (@RolloutSamples_advantage example_rollout example_advantages 1
           (memorySample [fl 4; fl 5; fl 6] 0 (fl (-2)))).
  reflexivity.
Defined.

(** C3. A run of [RolloutSamples] that closes its channel has sent as
    many samples as there are present (lane, timestep) pairs in the whole
    rollout: the sum over the timesteps of the number of present lanes,
    which is the length of the enumeration of present pairs. *)
Theorem RolloutSamples_count (r : RolloutSet) (advantages : Rewards) :
  snd (RolloutSamples r advantages) = Closed ->
  length (fst (RolloutSamples r advantages)) = total_present r
  /\ total_present r = length (present_pairs r).
Proof.
  destruct (RolloutSamples r advantages) as [sent o] eqn:Hrun. simpl.
  intros ->. apply RolloutSamples_sent in Hrun. destruct Hrun as [_ Hlen].
  unfold total_present, present_pairs in *.
  rewrite (Hlen eq_refl), pairs_from_length. auto.
Qed.

Lemma RolloutSamples_count_witness :
  snd (RolloutSamples example_rollout example_advantages) = Closed
  /\ length (fst (RolloutSamples example_rollout example_advantages)) = 3
  /\ total_present example_rollout = 3.
Proof.
  split; [reflexivity|].
  destruct (@RolloutSamples_count example_rollout example_advantages eq_refl)
    as [H1 H2].
  split; [exact H1|reflexivity].
Defined.

(** C4. The action of a sample sent by [RolloutSamples] is [MaxIndex] of
    the lane's part of the packed action distribution of its timestep;
    when that part is not empty, this is the position of its first
    maximum: no entry is greater, and no entry before it is as great
    (ties go to the lowest index). *)
Theorem RolloutSamples_action (r : RolloutSet) (advantages : Rewards)
    (n : nat) (s : Sample) :
  nth_error (fst (RolloutSamples r advantages)) n = Some s ->
  exists lane t input output,
    nth_error (present_pairs r) n = Some (lane, t)
    /\ nth_error (Inputs r) t = Some input
    /\ nth_error (Actions r) t = Some output
    /\ Action s =
         Z.of_nat (MaxIndex (lane_chunk (Packed output) (Present input) lane))
    /\ (lane_chunk (Packed output) (Present input) lane <> [] ->
        first_max (lane_chunk (Packed output) (Present input) lane)
          (MaxIndex (lane_chunk (Packed output) (Present input) lane))).
Proof.
  intros Hn. apply RolloutSamples_nth in Hn.
  destruct Hn as [[lane t] [Hp Hs]].
  apply sample_at_inv in Hs.
  destruct Hs as [input [output [a [Hin [Hout [_ ->]]]]]].
  exists lane, t, input, output. simpl.
  repeat split; auto. apply MaxIndex_first_max.
Qed.

Lemma RolloutSamples_action_witness :
  nth_error (fst (RolloutSamples example_rollout example_advantages)) 1
    = Some (memorySample [fl 4; fl 5; fl 6] 0 (fl (-2)))
  /\ exists lane t input output,
       nth_error (present_pairs example_rollout) 1 = Some (lane, t)
       /\ nth_error (Inputs example_rollout) t = Some input
       /\ nth_error (Actions example_rollout) t = Some output
       /\ 0%Z =
            Z.of_nat (MaxIndex (lane_chunk (Packed output) (Present input) lane))
       /\ (lane_chunk (Packed output) (Present input) lane <> [] ->
           first_max (lane_chunk (Packed output) (Present input) lane)
             (MaxIndex (lane_chunk (Packed output) (Present input) lane))).
Proof.
  split; [reflexivity|].
  apply (@RolloutSamples_action example_rollout example_advantages 1
           (memorySample [fl 4; fl 5; fl 6] 0 (fl (-2)))).
  reflexivity.
Defined.

(** * RolloutSamples: the ways a run ends *)

Lemma NumPresent_all_false (b : Batch) :
  Forall (fun pres => pres = false) (Present b) -> NumPresent b = 0.
Proof.
  unfold NumPresent. induction 1 as [|pres rest Hp _ IH]; simpl; [reflexivity|].
  subst pres. destruct (bool_dec false true); [discriminate|exact IH].
Qed.

(** With a present lane in every batch and an advantage entry for every
    present pair, the run ends by closing the channel when the action
    tape is long enough, and by the nil dereference of the missing action
    batch when it is not. *)
Lemma tape_loop_outcome advantages :
  forall inChan outChan t,
    Forall (fun input => NumPresent input <> 0) inChan ->
    Forall (fun p => advantage_at advantages (fst p) (snd p) <> None)
      (pairs_from t inChan) ->
    snd (tape_loop inChan outChan advantages t) =
    if length inChan <=? length outChan then Closed
    else Panicked NilDereference.
Proof.
  induction inChan as [|input inRest IH]; intros outChan t Hnp Hadv; simpl;
    [reflexivity|].
  inversion Hnp as [|? ? Hn Hnp']; subst.
  apply Nat.eqb_neq in Hn. rewrite Hn.
  destruct outChan as [|out outRest]; simpl; [reflexivity|].
  simpl in Hadv. apply Forall_app in Hadv. destruct Hadv as [Hnow Hlater].
  destruct (lanes_loop _ _ _ _ _ _ _ _ _) as [sent stop] eqn:Hlanes.
  apply lanes_loop_stop in Hlanes; [|reflexivity].
  destruct stop as [p|].
  - exfalso. destruct Hlanes as [_ [l [Hl Hnone]]].
    apply nth_error_In in Hl.
    rewrite Forall_forall in Hnow.
    apply (Hnow (l, t)); [|exact Hnone].
    apply in_map_iff. exists l. auto.
  - specialize (IH outRest (S t) Hnp' Hlater).
    destruct (tape_loop inRest outRest advantages (S t)) as [later o].
    simpl in *. exact IH.
Qed.

(** A well-formed rollout is walked to the end. *)
Lemma RolloutSamples_completes (r : RolloutSet) (advantages : Rewards) :
  well_formed r advantages -> snd (RolloutSamples r advantages) = Closed.
Proof.
  intros [Hlen [Hnp Hadv]]. unfold RolloutSamples.
  rewrite tape_loop_outcome by assumption.
  apply Nat.leb_le in Hlen. now rewrite Hlen.
Qed.

Lemma tape_loop_short advantages :
  forall inChan outChan t,
    length outChan < length inChan ->
    exists p, snd (tape_loop inChan outChan advantages t) = Panicked p.
Proof.
  induction inChan as [|input inRest IH]; intros outChan t Hlen; simpl in *;
    [lia|].
  destruct (NumPresent input =? 0); [simpl; eauto|].
  destruct outChan as [|out outRest]; simpl; [eauto|].
  destruct (lanes_loop _ _ _ _ _ _ _ _ _) as [sent [p|]]; [simpl; eauto|].
  simpl in Hlen. destruct (IH outRest (S t)) as [p Hp]; [lia|].
  destruct (tape_loop inRest outRest advantages (S t)) as [later o].
  simpl in *. eauto.
Qed.

Lemma tape_loop_no_division advantages :
  forall inChan outChan t,
    Forall (fun input => NumPresent input <> 0) inChan ->
    snd (tape_loop inChan outChan advantages t) <> Panicked DivideByZero.
Proof.
  induction inChan as [|input inRest IH]; intros outChan t Hnp; simpl;
    [discriminate|].
  inversion Hnp as [|? ? Hn Hnp']; subst.
  apply Nat.eqb_neq in Hn. rewrite Hn.
  destruct outChan as [|out outRest]; simpl; [discriminate|].
  destruct (lanes_loop _ _ _ _ _ _ _ _ _) as [sent stop] eqn:Hlanes.
  apply lanes_loop_stop in Hlanes; [|reflexivity].
  destruct stop as [p|].
  - destruct Hlanes as [-> _]. simpl. discriminate.
  - specialize (IH outRest (S t) Hnp').
    destruct (tape_loop inRest outRest advantages (S t)) as [later o].
    simpl in *. exact IH.
Qed.

(** A walk over [done ++ todo] is the walk over [done], followed, when
    that one gets through, by the walk over [todo]. *)
Lemma tape_loop_app advantages :
  forall done todo outChan t,
    tape_loop (done ++ todo) outChan advantages t =
    match tape_loop done outChan advantages t with
    | (sent, Closed) =>
        let '(later, o) :=
          tape_loop todo (skipn (length done) outChan) advantages
            (t + length done) in
        (sent ++ later, o)
    | (sent, Panicked p) => (sent, Panicked p)
    end.
Proof.
  induction done as [|input rest IH]; intros todo outChan t; simpl.
  - rewrite Nat.add_0_r.
    now destruct (tape_loop todo outChan advantages t).
  - destruct (NumPresent input =? 0); [reflexivity|].
    destruct outChan as [|out outRest]; simpl; [reflexivity|].
    destruct (lanes_loop _ _ _ _ _ _ _ _ _) as [sent [p|]]; [reflexivity|].
    rewrite IH.
    destruct (tape_loop rest outRest advantages (S t)) as [later [|p]];
      [|reflexivity].
    replace (t + S (length rest)) with (S t + length rest) by lia.
    destruct (tape_loop todo _ advantages _) as [later' o].
    now rewrite app_assoc.
Qed.

(** C8. When the action tape is shorter than the observation tape,
    [RolloutSamples] ends in a panic, which stops the program: it does
    not close its channel, and every sample sent before the panic comes
    from a timestep that has an action batch.  When every batch has a
    present lane and the advantage table covers the present pairs, the
    panic is the nil dereference of the missing action batch. *)
Theorem RolloutSamples_short_actions (r : RolloutSet) (advantages : Rewards) :
  length (Actions r) < length (Inputs r) ->
  (exists p, snd (RolloutSamples r advantages) = Panicked p)
  /\ (forall n s,
         nth_error (fst (RolloutSamples r advantages)) n = Some s ->
         exists lane t,
           nth_error (present_pairs r) n = Some (lane, t)
           /\ t < length (Actions r))
  /\ (Forall (fun input => NumPresent input <> 0) (Inputs r) ->
      Forall (fun p => advantage_at advantages (fst p) (snd p) <> None)
        (present_pairs r) ->
      snd (RolloutSamples r advantages) = Panicked NilDereference).
Proof.
  intros Hlen. split; [|split].
  - now apply tape_loop_short.
  - intros n s Hn. apply RolloutSamples_nth in Hn.
    destruct Hn as [[lane t] [Hp Hs]].
    apply sample_at_inv in Hs.
    destruct Hs as [input [output [a [_ [Hout _]]]]].
    exists lane, t. split; [exact Hp|].
    apply nth_error_Some. congruence.
  - intros Hnp Hadv. unfold RolloutSamples.
    rewrite tape_loop_outcome by assumption.
    destruct (length (Inputs r) <=? length (Actions r)) eqn:Hle; [|reflexivity].
    apply Nat.leb_le in Hle. lia.
Qed.

Lemma RolloutSamples_short_actions_witness :
  length (Actions short_rollout) < length (Inputs short_rollout)
  /\ RolloutSamples short_rollout example_advantages =
       ([memorySample [fl 1; fl 2; fl 3] 1 (fl 10);
         memorySample [fl 4; fl 5; fl 6] 0 (fl (-2))],
        Panicked NilDereference)
  /\ exists p, snd (RolloutSamples short_rollout example_advantages) = Panicked p.
Proof.
  split; [simpl; lia|]. split; [reflexivity|].
  apply (@RolloutSamples_short_actions short_rollout example_advantages).
  simpl; lia.
Defined.

(** C10. The feature and action counts of a timestep are the packed
    lengths divided by the number of present lanes.  When every
    observation batch has a present lane, no run ends in a division by
    zero; a batch whose mask is all false, reached after the earlier
    timesteps went through, ends the run with a division by zero and
    nothing more is sent. *)
Theorem RolloutSamples_division (r : RolloutSet) (advantages : Rewards) :
  (Forall (fun input => NumPresent input <> 0) (Inputs r) ->
   snd (RolloutSamples r advantages) <> Panicked DivideByZero)
  /\ (forall t input,
         nth_error (Inputs r) t = Some input ->
         Forall (fun pres => pres = false) (Present input) ->
         snd (RolloutSamples (mkRolloutSet (firstn t (Inputs r)) (Actions r))
                advantages) = Closed ->
         RolloutSamples r advantages =
           (fst (RolloutSamples (mkRolloutSet (firstn t (Inputs r)) (Actions r))
                   advantages),
            Panicked DivideByZero)).
Proof.
  split.
  - intros Hnp. now apply tape_loop_no_division.
  - intros t input Hin Hmask. unfold RolloutSamples. simpl.
    apply NumPresent_all_false in Hmask.
    destruct (nth_error_split _ _ Hin) as [done [todo [Hsplit Hlen]]].
    destruct r as [ins outs]. simpl in *. subst ins t.
    rewrite tape_loop_app, firstn_app, Nat.sub_diag, firstn_all.
    simpl. rewrite app_nil_r.
    destruct (tape_loop done outs advantages 0) as [sent o]. simpl.
    intros ->. rewrite Hmask. simpl. now rewrite app_nil_r.
Qed.

Lemma RolloutSamples_division_witness :
  snd (RolloutSamples example_rollout example_advantages) <> Panicked DivideByZero
  /\ RolloutSamples absent_rollout example_advantages =
       ([memorySample [fl 1] 1 (fl 10); memorySample [fl 2] 0 (fl (-2))],
        Panicked DivideByZero).
Proof.
  split.
  - apply (proj1 (RolloutSamples_division example_rollout example_advantages)).
    repeat constructor; simpl; discriminate.
  - apply (proj2 (RolloutSamples_division absent_rollout example_advantages)
             1 (mkBatch [] [false; false])).
    + reflexivity.
    + repeat constructor.
    + reflexivity.
Defined.

(** * Uint8Samples *)

Section QuantizeProofs.

Variable unrepresentable : float64 -> Z.

Lemma store_app (A : Type) (done rest : list A) (x a : A) :
  store (done ++ x :: rest) (length done) a = Ok (done ++ a :: rest).
Proof.
  induction done as [|d done IH]; simpl; [reflexivity|].
  now rewrite IH.
Qed.

Lemma quantize_loop_collect (inc : Sample) :
  forall todo i done,
    length done = i ->
    quantize_loop unrepresentable inc todo i (done ++ repeat 0%Z todo) =
    (fs <- collect unrepresentable inc todo i ;; Ok (done ++ fs)).
Proof.
  induction todo as [|todo IH]; intros i done Hlen; simpl.
  - reflexivity.
  - destruct (Feature inc i) as [f|p]; simpl; [|reflexivity].
    subst i. rewrite store_app. simpl.
    replace (done ++ uint8_of_float64 unrepresentable f :: repeat 0%Z todo)
      with ((done ++ [uint8_of_float64 unrepresentable f]) ++ repeat 0%Z todo)
      by (rewrite <- app_assoc; reflexivity).
    rewrite IH by (rewrite length_app; simpl; lia).
    destruct (collect unrepresentable inc todo (S (length done))) as [fs|p]; simpl;
      [|reflexivity].
    now rewrite <- app_assoc.
Qed.

Lemma collect_spec (inc : Sample) :
  forall todo i fs,
    collect unrepresentable inc todo i = Ok fs ->
    length fs = todo
    /\ forall k, k < todo ->
         exists f, Feature inc (i + k) = Ok f
                   /\ nth_error fs k = Some (uint8_of_float64 unrepresentable f).
Proof.
  induction todo as [|todo IH]; intros i fs H; simpl in H.
  - injection H as <-. split; [reflexivity|]. intros k Hk. lia.
  - destruct (Feature inc i) as [f|p] eqn:Hf; simpl in H; [|discriminate].
    destruct (collect unrepresentable inc todo (S i)) as [rest|p] eqn:Hrest; simpl in H;
      [|discriminate].
    injection H as <-. apply IH in Hrest. destruct Hrest as [Hlen Hnth].
    split; [simpl; lia|].
    intros [|k] Hk.
    + rewrite Nat.add_0_r. exists f. auto.
    + destruct (Hnth k) as [g [Hg Hk']]; [lia|].
      exists g. rewrite <- Nat.add_succ_comm. auto.
Qed.

Lemma collect_ok (inc : Sample) :
  forall todo i,
    (forall k, k < todo -> exists f, Feature inc (i + k) = Ok f) ->
    exists fs, collect unrepresentable inc todo i = Ok fs.
Proof.
  induction todo as [|todo IH]; intros i H; simpl; [eauto|].
  destruct (H 0) as [f Hf]; [lia|]. rewrite Nat.add_0_r in Hf.
  rewrite Hf. simpl.
  destruct (IH (S i)) as [rest Hrest].
  { intros k Hk. destruct (H (S k)) as [g Hg]; [lia|].
    exists g. now rewrite Nat.add_succ_comm. }
  rewrite Hrest. simpl. eauto.
Qed.

Lemma quantize_inv (numFeatures : Z) (inc out : Sample) :
  quantize unrepresentable numFeatures inc = Ok out ->
  (0 <= numFeatures)%Z
  /\ exists features,
       out = uint8Sample features (Action inc) (Advantage inc)
       /\ length features = Z.to_nat numFeatures
       /\ forall idx, idx < Z.to_nat numFeatures ->
            exists f, Feature inc idx = Ok f
                      /\ nth_error features idx = Some (uint8_of_float64 unrepresentable f).
Proof.
  unfold quantize.
  destruct (numFeatures <? 0)%Z eqn:Hneg; simpl; [discriminate|].
  apply Z.ltb_ge in Hneg.
  pose proof (quantize_loop_collect inc (Z.to_nat numFeatures) [] eq_refl) as Hq.
  simpl in Hq. rewrite Hq.
  destruct (collect unrepresentable inc (Z.to_nat numFeatures) 0) as [fs|p] eqn:Hfs; simpl;
    [|discriminate].
  intros H. injection H as <-. split; [exact Hneg|].
  apply collect_spec in Hfs. destruct Hfs as [Hlen Hnth].
  exists fs. auto.
Qed.

Lemma quantize_ok (numFeatures : Z) (inc : Sample) :
  (0 <= numFeatures)%Z ->
  (forall idx, idx < Z.to_nat numFeatures -> exists f, Feature inc idx = Ok f) ->
  exists out, quantize unrepresentable numFeatures inc = Ok out.
Proof.
  intros Hpos Hfeat. unfold quantize.
  apply Z.ltb_ge in Hpos. rewrite Hpos. simpl.
  pose proof (quantize_loop_collect inc (Z.to_nat numFeatures) [] eq_refl) as Hq.
  simpl in Hq. rewrite Hq.
  destruct (@collect_ok inc (Z.to_nat numFeatures) 0 Hfeat) as [fs Hfs].
  rewrite Hfs. simpl. eauto.
Qed.

(** The [n]-th sample sent is made from the [n]-th sample received. *)
Lemma Uint8Samples_nth (numFeatures : Z) :
  forall incoming n out,
    nth_error (fst (Uint8Samples unrepresentable numFeatures incoming)) n
      = Some out ->
    exists inc, nth_error incoming n = Some inc
                /\ quantize unrepresentable numFeatures inc = Ok out.
Proof.
  induction incoming as [|inc rest IH]; intros n out Hn; simpl in Hn.
  - destruct n; discriminate.
  - destruct (quantize unrepresentable numFeatures inc) as [sample|p] eqn:Hq;
      simpl in Hn; [|destruct n; discriminate].
    destruct (Uint8Samples unrepresentable numFeatures rest) as [sent o].
    simpl in *. destruct n as [|n]; simpl in Hn.
    + injection Hn as <-. exists inc. auto.
    + apply IH in Hn. exact Hn.
Qed.

Lemma Uint8Samples_closed_length (numFeatures : Z) :
  forall incoming,
    snd (Uint8Samples unrepresentable numFeatures incoming) = Closed ->
    length (fst (Uint8Samples unrepresentable numFeatures incoming))
      = length incoming.
Proof.
  induction incoming as [|inc rest IH]; simpl; [reflexivity|].
  destruct (quantize unrepresentable numFeatures inc) as [sample|p];
    simpl; [|discriminate].
  destruct (Uint8Samples unrepresentable numFeatures rest) as [sent o].
  simpl in *. intros Ho. now rewrite IH.
Qed.

Lemma Uint8Samples_closes (numFeatures : Z) :
  forall incoming,
    Forall (fun inc => exists out,
              quantize unrepresentable numFeatures inc = Ok out) incoming ->
    snd (Uint8Samples unrepresentable numFeatures incoming) = Closed.
Proof.
  induction 1 as [|inc rest [out Hout] _ IH]; simpl; [reflexivity|].
  rewrite Hout.
  destruct (Uint8Samples unrepresentable numFeatures rest) as [sent o].
  exact IH.
Qed.

End QuantizeProofs.

(** ** Bytes as floats *)

Lemma byte_exact_all :
  forallb byte_exact (map Z.of_nat (seq 0 256)) = true.
Proof. vm_compute. reflexivity. Qed.

Lemma byte_exact_range (n : Z) : (0 <= n <= 255)%Z -> byte_exact n = true.
Proof.
  intros Hn. pose proof byte_exact_all as H.
  rewrite forallb_forall in H. apply H.
  apply in_map_iff. exists (Z.to_nat n). split; [lia|].
  apply in_seq. lia.
Qed.

Lemma feq_finite (f : float64) (s : bool) (m : positive) (e : Z) :
  feq f (S754_finite s m e) = true -> f = S754_finite s m e.
Proof.
  unfold feq, SFeqb, SFcompare.
  destruct f as [[|]|[|]| |[|] m' e'], s; simpl; try discriminate;
    compare_cases; simpl; intros; try discriminate; subst; reflexivity.
Qed.

Lemma feq_zero (f : float64) (s : bool) :
  feq f (S754_zero s) = true -> exists s', f = S754_zero s'.
Proof.
  unfold feq, SFeqb, SFcompare.
  destruct f as [s'|[|]| |[|] m' e'], s; simpl; try discriminate; eauto.
Qed.

(** Quantizing and widening a byte-valued float gives it back. *)
Lemma uint8_roundtrip (unrepresentable : float64 -> Z) (f : float64) (n : Z) :
  (0 <= n <= 255)%Z ->
  feq f (float64_of_Z n) = true ->
  uint8_of_float64 unrepresentable f = n
  /\ feq (float64_of_Z n) f = true
  /\ (f <> S754_zero true -> float64_of_Z n = f).
Proof.
  intros Hn Hf. pose proof (byte_exact_range Hn) as Hb.
  unfold byte_exact in Hb.
  destruct (float64_of_Z n) as [[|]|[|]| |[|] m e] eqn:Hfl; try discriminate.
  - apply Z.eqb_eq in Hb. subst n.
    destruct (feq_zero _ _ Hf) as [s' ->].
    split; [reflexivity|]. split; [reflexivity|].
    destruct s'; [congruence|reflexivity].
  - pose proof (feq_finite _ _ _ _ Hf) as ->.
    destruct (float_trunc (S754_finite false m e)) as [z|] eqn:Hz;
      [|discriminate].
    apply Z.eqb_eq in Hb. subst z.
    split; [|split; [exact Hf|reflexivity]].
    unfold uint8_of_float64. rewrite Hz.
    destruct ((0 <=? n)%Z && (n <=? 255)%Z) eqn:Hr; [reflexivity|].
    apply andb_false_iff in Hr. destruct Hr as [Hr|Hr];
      [apply Z.leb_gt in Hr|apply Z.leb_gt in Hr]; lia.
Qed.

(** C5. On a stream whose features at the indices below [numFeatures]
    are byte-valued (floats equal to an integer of [0, 255]),
    [Uint8Samples] sends one sample for each sample received, in the same
    order, and closes; [Feature(idx)] of an output sample equals
    [Feature(idx)] of the input sample for every [idx] below
    [numFeatures] (the same float, but for the sign of a negative
    zero). *)
Theorem Uint8Samples_fidelity (unrepresentable : float64 -> Z)
    (numFeatures : Z) (incoming : list Sample) :
  (0 <= numFeatures)%Z ->
  Forall (fun inc => forall idx, idx < Z.to_nat numFeatures ->
            exists f, Feature inc idx = Ok f /\ uint8_valued f) incoming ->
  snd (Uint8Samples unrepresentable numFeatures incoming) = Closed
  /\ length (fst (Uint8Samples unrepresentable numFeatures incoming))
       = length incoming
  /\ forall k inc,
       nth_error incoming k = Some inc ->
       exists out,
         nth_error (fst (Uint8Samples unrepresentable numFeatures incoming)) k
           = Some out
         /\ forall idx, idx < Z.to_nat numFeatures ->
              exists f g,
                Feature inc idx = Ok f /\ Feature out idx = Ok g
                /\ feq g f = true
                /\ (f <> S754_zero true -> g = f).
Proof.
  intros Hpos Hall.
  assert (Hclosed : snd (Uint8Samples unrepresentable numFeatures incoming) = Closed).
  { apply Uint8Samples_closes. eapply Forall_impl; [|exact Hall].
    intros inc Hinc. apply quantize_ok; [exact Hpos|].
    intros idx Hidx. destruct (Hinc idx Hidx) as [f [Hf _]]. eauto. }
  pose proof (Uint8Samples_closed_length _ _ _ Hclosed) as Hlen.
  split; [exact Hclosed|]. split; [exact Hlen|].
  intros k inc Hk.
  destruct (nth_error (fst (Uint8Samples unrepresentable numFeatures incoming)) k)
    as [out|] eqn:Hout.
  2:{ apply nth_error_None in Hout. rewrite Hlen in Hout.
      apply nth_error_None in Hout. congruence. }
  exists out. split; [reflexivity|].
  apply Uint8Samples_nth in Hout. destruct Hout as [inc' [Hk' Hq]].
  rewrite Hk in Hk'. injection Hk' as <-.
  apply quantize_inv in Hq.
  destruct Hq as [_ [features [-> [_ Hfeat]]]].
  intros idx Hidx.
  destruct (Hfeat idx Hidx) as [f [Hf Hnth]].
  rewrite Forall_forall in Hall.
  destruct (Hall inc (nth_error_In _ _ Hk) idx Hidx) as [f' [Hf' [n [Hn Hfn]]]].
  rewrite Hf in Hf'. injection Hf' as <-.
  destruct (uint8_roundtrip unrepresentable f Hn Hfn) as [Hu [Heq Hsame]].
  exists f, (float64_of_Z n). split; [exact Hf|].
  split; [|split; [exact Heq|exact Hsame]].
  simpl. unfold index. rewrite Hnth. simpl. now rewrite Hu.
Qed.

Lemma Uint8Samples_fidelity_witness :
  (0 <= 3)%Z
  /\ Uint8Samples (fun _ => 0%Z) 3
       [memorySample [fl 1; fl 2; fl 3] 1 (fl 10);
        memorySample [fl 4; fl 255; fl 0] 0 (fl (-2))]
     = ([uint8Sample [1; 2; 3]%Z 1 (fl 10);
         uint8Sample [4; 255; 0]%Z 0 (fl (-2))], Closed)
  /\ snd (Uint8Samples (fun _ => 0%Z) 3
            [memorySample [fl 1; fl 2; fl 3] 1 (fl 10);
             memorySample [fl 4; fl 255; fl 0] 0 (fl (-2))]) = Closed.
Proof.
  split; [lia|]. split; [reflexivity|].
  apply (@Uint8Samples_fidelity (fun _ => 0%Z) 3
           [memorySample [fl 1; fl 2; fl 3] 1 (fl 10);
            memorySample [fl 4; fl 255; fl 0] 0 (fl (-2))]).
  - lia.
  - repeat constructor; intros [|[|[|idx]]] Hidx; simpl in Hidx; try lia;
      (eexists; split; [reflexivity|]).
    + exists 1%Z. split; [lia|reflexivity].
    + exists 2%Z. split; [lia|reflexivity].
    + exists 3%Z. split; [lia|reflexivity].
    + exists 4%Z. split; [lia|reflexivity].
    + exists 255%Z. split; [lia|reflexivity].
    + exists 0%Z. split; [lia|reflexivity].
Defined.

(** C6. The [n]-th sample sent by [Uint8Samples] is made from the
    [n]-th sample received and has its action and its advantage; a run
    that closes has sent one sample for each sample received. *)
Theorem Uint8Samples_copies (unrepresentable : float64 -> Z)
    (numFeatures : Z) (incoming : list Sample) (n : nat) (out : Sample) :
  nth_error (fst (Uint8Samples unrepresentable numFeatures incoming)) n
    = Some out ->
  (exists inc, nth_error incoming n = Some inc
               /\ Action out = Action inc
               /\ Advantage out = Advantage inc)
  /\ (snd (Uint8Samples unrepresentable numFeatures incoming) = Closed ->
      length (fst (Uint8Samples unrepresentable numFeatures incoming))
        = length incoming).
Proof.
  intros Hn. split; [|apply Uint8Samples_closed_length].
  apply Uint8Samples_nth in Hn. destruct Hn as [inc [Hinc Hq]].
  apply quantize_inv in Hq. destruct Hq as [_ [features [-> _]]].
  exists inc. simpl. auto.
Qed.

Lemma Uint8Samples_copies_witness :
  nth_error
    (fst (Uint8Samples (fun _ => 0%Z) 3
            (fst (RolloutSamples example_rollout example_advantages)))) 1
    = Some (uint8Sample [4; 5; 6]%Z 0 (fl (-2)))
  /\ exists inc,
       nth_error (fst (RolloutSamples example_rollout example_advantages)) 1
         = Some inc
       /\ 0%Z = Action inc
       /\ fl (-2) = Advantage inc.
Proof.
  split; [reflexivity|].
  apply (@Uint8Samples_copies (fun _ => 0%Z) 3
           (fst (RolloutSamples example_rollout example_advantages)) 1
           (uint8Sample [4; 5; 6]%Z 0 (fl (-2)))).
  reflexivity.
Defined.

(** Truncation toward zero on both sides of zero. *)
Example float_trunc_examples :
  float_trunc (S754_finite false 11 (-2)) = Some 2%Z      (* 2.75 *)
  /\ float_trunc (S754_finite true 11 (-2)) = Some (-2)%Z  (* -2.75 *)
  /\ float_trunc (S754_finite true 1 (-1)) = Some 0%Z      (* -0.5 *)
  /\ float_trunc (fl 300) = Some 300%Z.
Proof. repeat split. Qed.

(** C7, as worded, fails whatever the implementation does with values
    that [uint8] cannot represent: an infinite feature has no truncation
    that could wrap around. *)
Lemma Uint8Samples_wraps_counterexample :
  ~ exists unrepresentable, stores_wrapped_truncation unrepresentable.
Proof.
  intros [u H].
  destruct (H 1%Z [memorySample [S754_infinity false] 0%Z (fl 0)] 0
              (uint8Sample [(u (S754_infinity false) mod 256)%Z] 0%Z (fl 0)) 0)
    as [inc [f [z [features [Hinc [Hf [Hz _]]]]]]].
  - reflexivity.
  - simpl. lia.
  - simpl in Hinc. injection Hinc as <-.
    simpl in Hf. injection Hf as <-. discriminate.
Qed.

(** C7, amended. [Uint8Samples] stores [uint8(Feature(idx))] at every
    index below [numFeatures], with no clamping and no range check: a
    feature whose truncation toward zero lies in [0, 255] is stored as
    that truncation; for any other feature the stored byte is what the
    implementation's conversion gives, reduced to eight bits. *)
Theorem Uint8Samples_truncates (unrepresentable : float64 -> Z)
    (numFeatures : Z) (incoming : list Sample) (n : nat) (out : Sample)
    (idx : nat) :
  nth_error (fst (Uint8Samples unrepresentable numFeatures incoming)) n
    = Some out ->
  idx < Z.to_nat numFeatures ->
  exists inc f features,
    nth_error incoming n = Some inc
    /\ Feature inc idx = Ok f
    /\ out = uint8Sample features (Action inc) (Advantage inc)
    /\ nth_error features idx = Some (uint8_of_float64 unrepresentable f)
    /\ (0 <= uint8_of_float64 unrepresentable f < 2 ^ 8)%Z
    /\ (forall z, float_trunc f = Some z -> (0 <= z <= 255)%Z ->
          uint8_of_float64 unrepresentable f = z)
    /\ ((forall z, float_trunc f = Some z -> ~ (0 <= z <= 255)%Z) ->
          uint8_of_float64 unrepresentable f
            = (unrepresentable f mod 2 ^ 8)%Z).
Proof.
  intros Hn Hidx.
  apply Uint8Samples_nth in Hn. destruct Hn as [inc [Hinc Hq]].
  apply quantize_inv in Hq. destruct Hq as [_ [features [-> [_ Hfeat]]]].
  destruct (Hfeat idx Hidx) as [f [Hf Hnth]].
  exists inc, f, features.
  repeat (split; [assumption || reflexivity|]).
  change (2 ^ 8)%Z with 256%Z.
  unfold uint8_of_float64.
  destruct (float_trunc f) as [z|].
  - destruct ((0 <=? z)%Z && (z <=? 255)%Z) eqn:Hr.
    + apply andb_true_iff in Hr. destruct Hr as [H0 H1].
      apply Z.leb_le in H0. apply Z.leb_le in H1.
      split; [lia|]. split.
      * intros z' Hz' _. now injection Hz' as <-.
      * intros Hout. exfalso. apply (Hout z eq_refl). lia.
    + split; [apply Z.mod_pos_bound; lia|]. split; [|reflexivity].
      intros z' Hz' Hz. injection Hz' as <-.
      apply andb_false_iff in Hr.
      destruct Hr as [Hr|Hr]; apply Z.leb_gt in Hr; lia.
  - split; [apply Z.mod_pos_bound; lia|]. split; [|reflexivity].
    intros z' Hz'. discriminate.
Qed.

Lemma Uint8Samples_truncates_witness :
  nth_error
    (fst (Uint8Samples (fun _ => 0%Z) 1
            [memorySample [S754_finite false 11 (-2)] 0 (fl 0)])) 0
    = Some (uint8Sample [2%Z] 0 (fl 0))
  /\ 0 < Z.to_nat 1
  /\ exists inc f features,
       nth_error [memorySample [S754_finite false 11 (-2)] 0 (fl 0)] 0 = Some inc
       /\ Feature inc 0 = Ok f
       /\ uint8Sample [2%Z] 0 (fl 0)
          = uint8Sample features (Action inc) (Advantage inc)
       /\ nth_error features 0 = Some (uint8_of_float64 (fun _ => 0%Z) f)
       /\ (0 <= uint8_of_float64 (fun _ => 0%Z) f < 2 ^ 8)%Z
       /\ (forall z, float_trunc f = Some z -> (0 <= z <= 255)%Z ->
             uint8_of_float64 (fun _ => 0%Z) f = z)
       /\ ((forall z, float_trunc f = Some z -> ~ (0 <= z <= 255)%Z) ->
             uint8_of_float64 (fun _ => 0%Z) f = (0 mod 2 ^ 8)%Z).
Proof.
  split; [reflexivity|]. split; [simpl; lia|].
  apply (@Uint8Samples_truncates (fun _ => 0%Z) 1
           [memorySample [S754_finite false 11 (-2)] 0 (fl 0)] 0
           (uint8Sample [2%Z] 0 (fl 0)) 0).
  - reflexivity.
  - simpl; lia.
Defined.

(** * AllSamples *)

Lemma collect_channel (ch res : list Sample) :
  fold_left (fun res s => res ++ [s]) ch res = res ++ ch.
Proof.
  revert res. induction ch as [|s ch IH]; intros res; simpl.
  - now rewrite app_nil_r.
  - rewrite IH, <- app_assoc. reflexivity.
Qed.

(** C9. [AllSamples] returns the samples of the channel in the order
    they were sent: the slice has the length of the sequence, its [i]-th
    element is the [i]-th sample, and the empty sequence gives the empty
    slice. *)
Theorem AllSamples_order (ch : list Sample) :
  AllSamples ch = ch
  /\ length (AllSamples ch) = length ch
  /\ (forall i, nth_error (AllSamples ch) i = nth_error ch i)
  /\ AllSamples [] = [].
Proof.
  assert (H : AllSamples ch = ch) by apply (collect_channel ch []).
  rewrite H. auto.
Qed.

(** * Further properties of RolloutSamples *)

(** ** The features of a sample *)

Lemma rank_lt_present (present : list bool) :
  forall lane,
    nth_error present lane = Some true ->
    rank present lane < count_occ bool_dec present true.
Proof.
  unfold rank.
  induction present as [|pres rest IH]; intros [|lane] H; simpl in *;
    try discriminate.
  - injection H as ->. destruct (bool_dec true true); [lia|congruence].
  - specialize (IH lane H).
    destruct (bool_dec pres true); lia.
Qed.

Lemma chunk_length (A : Type) (l : list A) (i batch : nat) :
  i < batch ->
  length (firstn (length l / batch) (skipn (i * (length l / batch)) l))
    = length l / batch.
Proof.
  intros Hi. rewrite length_firstn, length_skipn.
  pose proof (Nat.Div0.mul_div_le (length l) batch) as Hle.
  nia.
Qed.

Lemma chunk_nth (A : Type) (l : list A) (w k idx : nat) :
  idx < w ->
  nth_error (firstn w (skipn k l)) idx = nth_error l (k + idx).
Proof.
  intros H. rewrite nth_error_firstn.
  apply Nat.ltb_lt in H. rewrite H. apply nth_error_skipn.
Qed.

Lemma lane_chunk_length (packed : list float64) (present : list bool)
    (lane : nat) :
  nth_error present lane = Some true ->
  length (lane_chunk packed present lane)
    = length packed / count_occ bool_dec present true.
Proof.
  intros H. unfold lane_chunk. apply chunk_length. now apply rank_lt_present.
Qed.

Lemma present_pair_input r n lane t :
  nth_error (present_pairs r) n = Some (lane, t) ->
  exists input, nth_error (Inputs r) t = Some input
                /\ nth_error (Present input) lane = Some true.
Proof.
  intros H. apply nth_error_In in H. unfold present_pairs in H.
  apply pairs_from_In in H. rewrite Nat.sub_0_r in H. tauto.
Qed.

(** X1. The features of the [n]-th sample are the part of the packed
    observation batch that belongs to its lane: with [w] the packed
    length divided by the number of present lanes, [Feature(idx)] is the
    packed value at [rank * w + idx] for [idx < w] and panics for any
    other index. *)
Theorem RolloutSamples_features (r : RolloutSet) (advantages : Rewards)
    (n : nat) (s : Sample) :
  nth_error (fst (RolloutSamples r advantages)) n = Some s ->
  exists lane t input,
    nth_error (present_pairs r) n = Some (lane, t)
    /\ nth_error (Inputs r) t = Some input
    /\ (forall idx, idx < length (Packed input) / NumPresent input ->
          exists f,
            nth_error (Packed input)
              (rank (Present input) lane
                 * (length (Packed input) / NumPresent input) + idx) = Some f
            /\ Feature s idx = Ok f)
    /\ (forall idx, length (Packed input) / NumPresent input <= idx ->
          Feature s idx = Panic IndexOutOfRange).
Proof.
  intros Hn. apply RolloutSamples_nth in Hn.
  destruct Hn as [[lane t] [Hp Hs]].
  destruct (present_pair_input _ _ Hp) as [input [Hin Hpres]].
  apply sample_at_inv in Hs.
  destruct Hs as [input' [output [a [Hin' [_ [_ ->]]]]]].
  rewrite Hin in Hin'. injection Hin' as <-.
  exists lane, t, input. split; [exact Hp|]. split; [exact Hin|].
  pose proof (lane_chunk_length (Packed input) _ _ Hpres) as Hlen.
  fold (NumPresent input) in Hlen.
  split.
  - intros idx Hidx.
    assert (Hsome : nth_error (lane_chunk (Packed input) (Present input) lane) idx
                    <> None) by (apply nth_error_Some; lia).
    destruct (nth_error (lane_chunk (Packed input) (Present input) lane) idx)
      as [f|] eqn:Hf; [|congruence].
    exists f. split.
    + unfold lane_chunk in Hf. fold (NumPresent input) in Hf.
      now rewrite chunk_nth in Hf by exact Hidx.
    + simpl. unfold index. now rewrite Hf.
  - intros idx Hidx. simpl. unfold index.
    assert (Hnone : nth_error (lane_chunk (Packed input) (Present input) lane) idx
                    = None) by (apply nth_error_None; lia).
    now rewrite Hnone.
Qed.

Lemma RolloutSamples_features_witness :
  nth_error (fst (RolloutSamples example_rollout example_advantages)) 1
    = Some (memorySample [fl 4; fl 5; fl 6] 0 (fl (-2)))
  /\ Feature (memorySample [fl 4; fl 5; fl 6] 0 (fl (-2))) 2 = Ok (fl 6)
  /\ exists lane t input,
       nth_error (present_pairs example_rollout) 1 = Some (lane, t)
       /\ nth_error (Inputs example_rollout) t = Some input
       /\ (forall idx, idx < length (Packed input) / NumPresent input ->
             exists f,
               nth_error (Packed input)
                 (rank (Present input) lane
                    * (length (Packed input) / NumPresent input) + idx) = Some f
               /\ Feature (memorySample [fl 4; fl 5; fl 6] 0 (fl (-2))) idx = Ok f)
       /\ (forall idx, length (Packed input) / NumPresent input <= idx ->
             Feature (memorySample [fl 4; fl 5; fl 6] 0 (fl (-2))) idx
               = Panic IndexOutOfRange).
Proof.
  split; [reflexivity|]. split; [reflexivity|].
  apply (@RolloutSamples_features example_rollout example_advantages 1
           (memorySample [fl 4; fl 5; fl 6] 0 (fl (-2)))).
  reflexivity.
Defined.

(** ** The packed values are handed out once and in order *)

Lemma firstn_then_firstn (A : Type) (l : list A) :
  forall n m, firstn n l ++ firstn m (skipn n l) = firstn (n + m) l.
Proof.
  induction l as [|x l IH]; intros [|n] m; simpl;
    try (now rewrite ?firstn_nil).
  now rewrite IH.
Qed.

Lemma lanes_loop_features inValues outPacked nF nA advantages t :
  forall present lane i sent,
    lanes_loop inValues outPacked nF nA advantages t lane present i
      = (sent, None) ->
    concat (map memory_features sent) =
    firstn (count_occ bool_dec present true * nF) (skipn (i * nF) inValues).
Proof.
  induction present as [|pres rest IH]; intros lane i sent Hrun; simpl in Hrun.
  - injection Hrun as <-. reflexivity.
  - destruct pres; simpl in Hrun.
    + destruct (slice inValues (i * nF) ((i + 1) * nF)) as [subIns|p] eqn:Hin;
        simpl in Hrun; [|discriminate].
      destruct (slice outPacked (i * nA) ((i + 1) * nA)) as [subOuts|p];
        simpl in Hrun; [|discriminate].
      destruct (index advantages lane) as [row|p]; simpl in Hrun; [|discriminate].
      destruct (index row t) as [a|p]; simpl in Hrun; [|discriminate].
      destruct (lanes_loop inValues outPacked nF nA advantages t (S lane) rest (S i))
        as [sent' stop'] eqn:Hrest.
      injection Hrun as <- ->.
      apply IH in Hrest. simpl. rewrite Hrest.
      apply slice_chunk in Hin. subst subIns.
      destruct (bool_dec true true) as [_|n]; [|congruence].
      replace (skipn (S i * nF) inValues)
        with (skipn nF (skipn (i * nF) inValues))
        by (rewrite skipn_skipn; f_equal; lia).
      apply firstn_then_firstn.
    + destruct (bool_dec false true) as [e|_]; [discriminate|].
      now apply IH in Hrun.
Qed.

Lemma tape_loop_features advantages :
  forall inChan outChan t sent,
    tape_loop inChan outChan advantages t = (sent, Closed) ->
    concat (map memory_features sent) = concat (map packed_used inChan).
Proof.
  induction inChan as [|input inRest IH]; intros outChan t sent Hrun;
    simpl in Hrun.
  - injection Hrun as <-. reflexivity.
  - destruct (NumPresent input =? 0); [discriminate|].
    destruct (hd_error outChan) as [out|]; [|discriminate].
    destruct (lanes_loop _ _ _ _ _ _ _ _ _) as [sentl [p|]] eqn:Hlanes;
      [discriminate|].
    destruct (tape_loop inRest (tl outChan) advantages (S t))
      as [later o] eqn:Hlater.
    injection Hrun as <- ->.
    apply lanes_loop_features in Hlanes. apply IH in Hlater.
    rewrite map_app, concat_app, Hlanes, Hlater. simpl.
    reflexivity.
Qed.

(** X2. In a run that closes, the feature slices of the samples, put
    end to end in sending order, are the packed observation batches put
    end to end, each cut to a whole number of parts: no packed value is
    handed to two samples or out of order.  When every packed length is
    a multiple of the number of present lanes nothing is cut off. *)
Theorem RolloutSamples_features_partition (r : RolloutSet)
    (advantages : Rewards) :
  snd (RolloutSamples r advantages) = Closed ->
  concat (map memory_features (fst (RolloutSamples r advantages)))
    = concat (map packed_used (Inputs r))
  /\ (Forall (fun b => length (Packed b) mod NumPresent b = 0) (Inputs r) ->
      concat (map memory_features (fst (RolloutSamples r advantages)))
        = concat (map (@Packed) (Inputs r))).
Proof.
  destruct (RolloutSamples r advantages) as [sent o] eqn:Hrun. simpl.
  intros ->. unfold RolloutSamples in Hrun.
  apply tape_loop_features in Hrun.
  split; [exact Hrun|].
  intros Hdiv. rewrite Hrun. f_equal.
  apply map_ext_in. intros b Hb.
  rewrite Forall_forall in Hdiv. specialize (Hdiv b Hb).
  unfold packed_used.
  apply firstn_all2.
  pose proof (Nat.div_mod_eq (length (Packed b)) (NumPresent b)). lia.
Qed.

Lemma RolloutSamples_features_partition_witness :
  snd (RolloutSamples example_rollout example_advantages) = Closed
  /\ concat (map memory_features
               (fst (RolloutSamples example_rollout example_advantages)))
     = [fl 1; fl 2; fl 3; fl 4; fl 5; fl 6; fl 7; fl 8; fl 9].
Proof.
  split; [reflexivity|].
  rewrite (proj1 (@RolloutSamples_features_partition example_rollout
                    example_advantages eq_refl)).
  reflexivity.
Defined.

(** ** When a run closes and where it stops *)

Lemma tape_loop_closed_inv advantages :
  forall inChan outChan t,
    snd (tape_loop inChan outChan advantages t) = Closed ->
    length inChan <= length outChan
    /\ Forall (fun input => NumPresent input <> 0) inChan
    /\ Forall (fun p => advantage_at advantages (fst p) (snd p) <> None)
         (pairs_from t inChan).
Proof.
  induction inChan as [|input inRest IH]; intros outChan t Hrun; simpl in *.
  - repeat split; try constructor. lia.
  - destruct (NumPresent input =? 0) eqn:Hn; [discriminate|].
    apply Nat.eqb_neq in Hn.
    destruct outChan as [|out outRest]; simpl in Hrun; [discriminate|].
    destruct (lanes_loop _ _ _ _ _ _ _ _ _) as [sentl stop] eqn:Hlanes.
    apply lanes_loop_stop in Hlanes; [|reflexivity].
    destruct stop as [p|]; [discriminate|].
    destruct (tape_loop inRest outRest advantages (S t)) as [later o] eqn:Hlater.
    simpl in Hrun. subst o.
    destruct (IH outRest (S t)) as [Hlen [Hnp Hadv]]; [now rewrite Hlater|].
    split; [simpl; lia|]. split; [now constructor|].
    apply Forall_app. split; [|exact Hadv].
    apply Forall_forall. intros [l t'] Hin. apply in_map_iff in Hin.
    destruct Hin as [l' [Heq Hl']]. injection Heq as -> ->.
    rewrite Forall_forall in Hlanes. now apply Hlanes.
Qed.

(** X3. [RolloutSamples] closes its channel exactly on the well-formed
    rollouts: an action batch for every observation batch, a present
    lane in every observation batch, and an advantage entry for every
    present pair. *)
Theorem RolloutSamples_closes_iff (r : RolloutSet) (advantages : Rewards) :
  snd (RolloutSamples r advantages) = Closed <-> well_formed r advantages.
Proof.
  split.
  - intros H. now apply tape_loop_closed_inv in H.
  - apply RolloutSamples_completes.
Qed.

Lemma RolloutSamples_closes_iff_witness :
  snd (RolloutSamples example_rollout example_advantages) = Closed
  /\ ~ well_formed short_rollout example_advantages.
Proof.
  split.
  - apply (proj2 (RolloutSamples_closes_iff example_rollout example_advantages)).
    split; [simpl; lia|].
    split; repeat constructor; simpl; discriminate.
  - intros Hwf.
    apply (proj2 (RolloutSamples_closes_iff short_rollout example_advantages))
      in Hwf.
    discriminate.
Defined.

Lemma tape_loop_panic advantages :
  forall inChan outChan t0 sent p,
    tape_loop inChan outChan advantages t0 = (sent, Panicked p) ->
    exists k input,
      nth_error inChan k = Some input
      /\ match p with
         | DivideByZero =>
             NumPresent input = 0
             /\ length sent = length (pairs_from t0 (firstn k inChan))
         | NilDereference =>
             NumPresent input <> 0
             /\ nth_error outChan k = None
             /\ length sent = length (pairs_from t0 (firstn k inChan))
         | IndexOutOfRange =>
             exists lane,
               nth_error (pairs_from t0 inChan) (length sent)
                 = Some (lane, t0 + k)
               /\ advantage_at advantages lane (t0 + k) = None
         | SliceOutOfRange => False
         | MakeSliceLen => False
         end.
Proof.
  induction inChan as [|input inRest IH]; intros outChan t0 sent p Hrun;
    simpl in Hrun; [discriminate|].
  destruct (NumPresent input =? 0) eqn:Hn.
  { injection Hrun as <- <-. apply Nat.eqb_eq in Hn.
    exists 0, input. simpl. auto. }
  apply Nat.eqb_neq in Hn.
  destruct outChan as [|out outRest]; simpl in Hrun.
  { injection Hrun as <- <-. exists 0, input. simpl. auto. }
  destruct (lanes_loop _ _ _ _ _ _ _ _ _) as [sentl stop] eqn:Hlanes.
  pose proof Hlanes as Hstop.
  apply lanes_loop_stop in Hstop; [|reflexivity].
  apply (@lanes_loop_sent _ _ _ _ _ _ _ []) in Hlanes; [|reflexivity..].
  destruct Hlanes as [_ Hlen].
  destruct stop as [p'|].
  - injection Hrun as <- <-. destruct Hstop as [-> [l [Hl Hnone]]].
    exists 0, input. split; [reflexivity|].
    exists l. rewrite Nat.add_0_r. split; [|exact Hnone].
    simpl. rewrite nth_error_app1.
    + rewrite nth_error_map, Hl. reflexivity.
    + rewrite length_map. apply nth_error_Some. congruence.
  - specialize (Hlen eq_refl).
    destruct (tape_loop inRest outRest advantages (S t0)) as [later o] eqn:Hlater.
    injection Hrun as <- ->.
    apply IH in Hlater. destruct Hlater as [k [input' [Hk Hsite]]].
    exists (S k), input'. split; [exact Hk|].
    simpl. rewrite !length_app, length_map, <- Hlen.
    destruct p; try exact Hsite.
    + destruct Hsite as [H0 Hl]. split; [exact H0|lia].
    + destruct Hsite as [H0 [H1 Hl]]. split; [exact H0|]. split; [exact H1|lia].
    + destruct Hsite as [lane [Hl Hnone]]. exists lane.
      rewrite <- Nat.add_succ_comm. split; [|exact Hnone].
      rewrite nth_error_app2 by (rewrite length_map; lia).
      rewrite length_map, <- Hlen.
      replace (length sentl + length later - length sentl) with (length later)
        by lia.
      exact Hl.
Qed.

(** X4. A run of [RolloutSamples] that panics does so at one batch, for
    one of three reasons: the batch has no present lane (division by
    zero), or the action tape has no batch for its timestep (nil
    dereference), both after all samples of the earlier timesteps and
    none of this one were sent; or the next present pair to send has no
    entry in the advantage table (index out of range).  The slice
    expressions never panic. *)
Theorem RolloutSamples_panic (r : RolloutSet) (advantages : Rewards)
    (p : panic) :
  snd (RolloutSamples r advantages) = Panicked p ->
  exists t input,
    nth_error (Inputs r) t = Some input
    /\ panic_site r advantages (fst (RolloutSamples r advantages)) p t input.
Proof.
  destruct (RolloutSamples r advantages) as [sent o] eqn:Hrun. simpl.
  intros ->. unfold RolloutSamples in Hrun.
  apply tape_loop_panic in Hrun.
  destruct Hrun as [k [input [Hk Hsite]]].
  exists k, input. split; [exact Hk|exact Hsite].
Qed.

Lemma RolloutSamples_panic_witness :
  RolloutSamples example_rollout short_advantages
    = ([memorySample [fl 1; fl 2; fl 3] 1 (fl 10)], Panicked IndexOutOfRange)
  /\ exists t input,
       nth_error (Inputs example_rollout) t = Some input
       /\ panic_site example_rollout short_advantages
            (fst (RolloutSamples example_rollout short_advantages))
            IndexOutOfRange t input.
Proof.
  split; [reflexivity|].
  apply (@RolloutSamples_panic example_rollout short_advantages IndexOutOfRange).
  reflexivity.
Defined.

(** ** What a run does not read *)

Lemma tape_loop_surplus advantages :
  forall inChan outChan t,
    tape_loop inChan outChan advantages t
    = tape_loop inChan (firstn (length inChan) outChan) advantages t.
Proof.
  induction inChan as [|input inRest IH]; intros outChan t; simpl;
    [reflexivity|].
  destruct (NumPresent input =? 0); [reflexivity|].
  destruct outChan as [|out outRest]; simpl; [reflexivity|].
  now rewrite IH.
Qed.

(** X5. Action batches beyond the last observation batch are never
    received: the run is the run on the action tape cut to the length of
    the observation tape. *)
Theorem RolloutSamples_surplus_actions (r : RolloutSet) (advantages : Rewards) :
  RolloutSamples r advantages
  = RolloutSamples
      (mkRolloutSet (Inputs r) (firstn (length (Inputs r)) (Actions r)))
      advantages.
Proof.
  unfold RolloutSamples. simpl. apply tape_loop_surplus.
Qed.

Lemma advantage_lookup (advantages : Rewards) (lane t : nat)
    (k : float64 -> result Sample) :
  (row <- index advantages lane ;; advantage <- index row t ;; k advantage)
  = match advantage_at advantages lane t with
    | Some a => k a
    | None => Panic IndexOutOfRange
    end.
Proof.
  unfold index, advantage_at.
  destruct (nth_error advantages lane) as [row|]; simpl; [|reflexivity].
  destruct (nth_error row t); reflexivity.
Qed.

Lemma lanes_loop_advantages inValues outPacked nF nA adv adv' t :
  forall present lane i,
    (forall l, In l (lanes_from lane present) ->
       advantage_at adv l t = advantage_at adv' l t) ->
    lanes_loop inValues outPacked nF nA adv t lane present i
    = lanes_loop inValues outPacked nF nA adv' t lane present i.
Proof.
  induction present as [|pres rest IH]; intros lane i Hagree; simpl;
    [reflexivity|].
  destruct pres; simpl.
  - simpl in Hagree.
    destruct (slice inValues (i * nF) ((i + 1) * nF)) as [subIns|p]; simpl;
      [|reflexivity].
    destruct (slice outPacked (i * nA) ((i + 1) * nA)) as [subOuts|p]; simpl;
      [|reflexivity].
    rewrite !advantage_lookup, <- (Hagree lane) by auto.
    rewrite (IH (S lane) (S i)) by auto. reflexivity.
  - apply IH. exact Hagree.
Qed.

Lemma tape_loop_advantages adv adv' :
  forall inChan outChan t,
    (forall lane t', In (lane, t') (pairs_from t inChan) ->
       advantage_at adv lane t' = advantage_at adv' lane t') ->
    tape_loop inChan outChan adv t = tape_loop inChan outChan adv' t.
Proof.
  induction inChan as [|input inRest IH]; intros outChan t Hagree; simpl;
    [reflexivity|].
  simpl in Hagree.
  destruct (NumPresent input =? 0); [reflexivity|].
  destruct (hd_error outChan) as [out|]; [|reflexivity].
  rewrite (@lanes_loop_advantages _ _ _ _ adv adv').
  - rewrite (IH (tl outChan) (S t)); [reflexivity|].
    intros lane t' Hin. apply Hagree. apply in_or_app. auto.
  - intros l Hl. apply Hagree. apply in_or_app. left.
    apply in_map_iff. exists l. auto.
Qed.

(** X6. The advantage table is read at the present pairs only: two
    tables that agree on every present pair (entry for entry, or both
    without one) give the same run, whatever else they hold. *)
Theorem RolloutSamples_advantages_read (r : RolloutSet)
    (advantages advantages' : Rewards) :
  (forall lane t, In (lane, t) (present_pairs r) ->
     advantage_at advantages lane t = advantage_at advantages' lane t) ->
  RolloutSamples r advantages = RolloutSamples r advantages'.
Proof.
  intros Hagree. unfold RolloutSamples. now apply tape_loop_advantages.
Qed.

Lemma RolloutSamples_advantages_read_witness :
  (forall lane t, In (lane, t) (present_pairs example_rollout) ->
     advantage_at example_advantages lane t
     = advantage_at padded_advantages lane t)
  /\ RolloutSamples example_rollout example_advantages
     = RolloutSamples example_rollout padded_advantages.
Proof.
  assert (H : forall lane t, In (lane, t) (present_pairs example_rollout) ->
                advantage_at example_advantages lane t
                = advantage_at padded_advantages lane t).
  { intros lane t [H|[H|[H|[]]]]; injection H as <- <-; reflexivity. }
  split; [exact H|].
  apply (@RolloutSamples_advantages_read example_rollout example_advantages
           padded_advantages H).
Defined.

Lemma RolloutSamples_surplus_actions_example :
  RolloutSamples long_rollout example_advantages
  = RolloutSamples example_rollout example_advantages.
Proof.
  rewrite (RolloutSamples_surplus_actions long_rollout). reflexivity.
Defined.

(** ** The range of the actions *)




(** * Further properties of Uint8Samples *)








(** X9. Every sample sent by [Uint8Samples] has exactly [numFeatures]
    features, however many the incoming sample had: [Feature(idx)] is
    defined below [numFeatures] and panics from [numFeatures] on. *)
Theorem Uint8Samples_feature_count (unrepresentable : float64 -> Z)
    (numFeatures : Z) (incoming : list Sample) (n : nat) (out : Sample) :
  nth_error (fst (Uint8Samples unrepresentable numFeatures incoming)) n
    = Some out ->
  (forall idx, idx < Z.to_nat numFeatures ->
     exists g, Feature out idx = Ok g)
  /\ (forall idx, Z.to_nat numFeatures <= idx ->
        Feature out idx = Panic IndexOutOfRange).
Proof.
  intros Hn. apply Uint8Samples_nth in Hn. destruct Hn as [inc [_ Hq]].
  apply quantize_inv in Hq. destruct Hq as [_ [features [-> [Hlen _]]]].
  split; intros idx Hidx; simpl; unfold index.
  - destruct (nth_error features idx) as [b|] eqn:Hb; [simpl; eauto|].
    apply nth_error_None in Hb. lia.
  - assert (Hb : nth_error features idx = None) by (apply nth_error_None; lia).
    now rewrite Hb.
Qed.

Lemma Uint8Samples_feature_count_witness :
  nth_error
    (fst (Uint8Samples (fun _ => 0%Z) 2
            [memorySample [fl 1; fl 2; fl 3] 1 (fl 10)])) 0
    = Some (uint8Sample [1; 2]%Z 1 (fl 10))
  /\ Feature (memorySample [fl 1; fl 2; fl 3] 1 (fl 10)) 2 = Ok (fl 3)
  /\ Feature (uint8Sample [1; 2]%Z 1 (fl 10)) 2 = Panic IndexOutOfRange.
Proof.
  split; [reflexivity|]. split; [reflexivity|].
  apply (proj2 (@Uint8Samples_feature_count (fun _ => 0%Z) 2
                  [memorySample [fl 1; fl 2; fl 3] 1 (fl 10)] 0
                  (uint8Sample [1; 2]%Z 1 (fl 10)) eq_refl)).
  simpl. lia.
Defined.

(** ** Quantizing twice *)

Lemma uint8_range (u : float64 -> Z) (f : float64) :
  (0 <= uint8_of_float64 u f <= 255)%Z.
Proof.
  unfold uint8_of_float64.
  pose proof (Z.mod_pos_bound (u f) 256) as Hmod.
  destruct (float_trunc f) as [z|]; [|lia].
  destruct ((0 <=? z)%Z && (z <=? 255)%Z) eqn:Hr; [|lia].
  apply andb_true_iff in Hr. destruct Hr as [H0 H1].
  apply Z.leb_le in H0. apply Z.leb_le in H1. lia.
Qed.

Lemma uint8_of_byte (u : float64 -> Z) (b : Z) :
  (0 <= b <= 255)%Z -> uint8_of_float64 u (float64_of_Z b) = b.
Proof.
  intros Hb. apply (uint8_roundtrip u (float64_of_Z b) Hb).
  pose proof (byte_exact_range Hb) as He. unfold byte_exact in He.
  destruct (float64_of_Z b) as [[|]|[|]| |[|] m e]; try discriminate.
  - reflexivity.
  - unfold feq, SFeqb, SFcompare.
    rewrite Z.compare_refl.
    change (Pos.compare_cont Eq m m) with (Pos.compare m m).
    now rewrite Pos.compare_refl.
Qed.

Lemma collect_bytes (u : float64 -> Z) (a : Z) (adv : float64) :
  forall suffix pre,
    Forall (fun b => (0 <= b <= 255)%Z) suffix ->
    collect u (uint8Sample (pre ++ suffix) a adv) (length suffix) (length pre)
    = Ok suffix.
Proof.
  induction suffix as [|b suffix IH]; intros pre Hall; simpl; [reflexivity|].
  inversion Hall as [|? ? Hb Hall']; subst.
  unfold index. rewrite nth_error_app2, Nat.sub_diag by lia. simpl.
  rewrite (uint8_of_byte u Hb).
  specialize (IH (pre ++ [b]) Hall').
  rewrite <- app_assoc, length_app, Nat.add_1_r in IH. simpl in IH.
  now rewrite IH.
Qed.

Lemma quantize_quantized (u : float64 -> Z) (numFeatures : Z)
    (inc out : Sample) :
  quantize u numFeatures inc = Ok out -> quantize u numFeatures out = Ok out.
Proof.
  intros Hq. apply quantize_inv in Hq.
  destruct Hq as [Hpos [features [-> [Hlen Hfeat]]]].
  assert (Hall : Forall (fun b => (0 <= b <= 255)%Z) features).
  { apply Forall_forall. intros b Hb. apply In_nth_error in Hb.
    destruct Hb as [idx Hidx].
    assert (Hlt : idx < Z.to_nat numFeatures).
    { rewrite <- Hlen. apply nth_error_Some. congruence. }
    destruct (Hfeat idx Hlt) as [f [_ Hf]].
    rewrite Hidx in Hf. injection Hf as ->. apply uint8_range. }
  unfold quantize. apply Z.ltb_ge in Hpos. rewrite Hpos. simpl.
  pose proof (quantize_loop_collect u
                (uint8Sample features (Action inc) (Advantage inc))
                (Z.to_nat numFeatures) [] eq_refl) as Hloop.
  simpl in Hloop. rewrite Hloop.
  pose proof (collect_bytes u (Action inc) (Advantage inc) [] Hall) as Hc.
  simpl in Hc. rewrite Hlen in Hc. rewrite Hc. reflexivity.
Qed.

(** X10. Quantizing a quantized stream changes nothing: running
    [Uint8Samples] with the same [numFeatures] on what it has sent sends
    the same samples again and closes. *)
Theorem Uint8Samples_idempotent (unrepresentable : float64 -> Z)
    (numFeatures : Z) (incoming : list Sample) :
  Uint8Samples unrepresentable numFeatures
    (fst (Uint8Samples unrepresentable numFeatures incoming))
  = (fst (Uint8Samples unrepresentable numFeatures incoming), Closed).
Proof.
  induction incoming as [|inc rest IH]; simpl; [reflexivity|].
  destruct (quantize unrepresentable numFeatures inc) as [sample|p] eqn:Hq;
    [|reflexivity].
  destruct (Uint8Samples unrepresentable numFeatures rest) as [sent o].
  simpl in *. rewrite (quantize_quantized _ _ _ Hq), IH. reflexivity.
Qed.

(** * The three stages in a row *)

Lemma RolloutSamples_closed_sent r advantages :
  well_formed r advantages ->
  map Some (fst (RolloutSamples r advantages))
  = map (sample_at r advantages) (present_pairs r).
Proof.
  intros Hwf. pose proof (RolloutSamples_completes Hwf) as Hc.
  destruct (RolloutSamples r advantages) as [sent o] eqn:Hrun.
  simpl in *. subst o. apply RolloutSamples_sent in Hrun.
  destruct Hrun as [Hmap Hlen].
  now rewrite (Hlen eq_refl), firstn_all in Hmap.
Qed.

Lemma sample_at_has_features r advantages numFeatures lane t s :
  Forall (fun input =>
            Z.to_nat numFeatures <= length (Packed input) / NumPresent input)
    (Inputs r) ->
  In (lane, t) (present_pairs r) ->
  sample_at r advantages (lane, t) = Some s ->
  has_features numFeatures s.
Proof.
  intros Hwide Hin Hs.
  apply In_nth_error in Hin. destruct Hin as [n Hn].
  destruct (present_pair_input _ _ Hn) as [input [Hinput Hpres]].
  apply sample_at_inv in Hs.
  destruct Hs as [input' [output [a [Hinput' [_ [_ ->]]]]]].
  rewrite Hinput in Hinput'. injection Hinput' as <-.
  rewrite Forall_forall in Hwide.
  specialize (Hwide input (nth_error_In _ _ Hinput)).
  pose proof (lane_chunk_length (Packed input) _ _ Hpres) as Hlen.
  fold (NumPresent input) in Hlen.
  intros idx Hidx. simpl. unfold index.
  destruct (nth_error (lane_chunk (Packed input) (Present input) lane) idx)
    as [f|] eqn:Hf; [eauto|].
  apply nth_error_None in Hf. lia.
Qed.

(** X11. The stages in a row, [AllSamples(Uint8Samples(numFeatures,
    RolloutSamples(r, advantages)))], on a well-formed rollout whose
    lanes have at least [numFeatures] features each: the quantizer
    closes, the slice has one sample for each present pair, and the
    [k]-th sample has the action and the advantage [advantages[lane][t]]
    of the [k]-th present pair and, at every index below [numFeatures],
    the byte of that pair's feature. *)
Theorem pipeline_samples (unrepresentable : float64 -> Z)
    (numFeatures : Z) (r : RolloutSet) (advantages : Rewards) :
  well_formed r advantages ->
  (0 <= numFeatures)%Z ->
  Forall (fun input =>
            Z.to_nat numFeatures <= length (Packed input) / NumPresent input)
    (Inputs r) ->
  snd (Uint8Samples unrepresentable numFeatures
         (fst (RolloutSamples r advantages))) = Closed
  /\ length (AllSamples
               (fst (Uint8Samples unrepresentable numFeatures
                       (fst (RolloutSamples r advantages)))))
     = total_present r
  /\ forall k lane t,
       nth_error (present_pairs r) k = Some (lane, t) ->
       exists s o,
         sample_at r advantages (lane, t) = Some s
         /\ nth_error
              (AllSamples
                 (fst (Uint8Samples unrepresentable numFeatures
                         (fst (RolloutSamples r advantages))))) k = Some o
         /\ Action o = Action s
         /\ advantage_at advantages lane t = Some (Advantage o)
         /\ forall idx, idx < Z.to_nat numFeatures ->
              exists f,
                Feature s idx = Ok f
                /\ Feature o idx
                   = Ok (float64_of_Z (uint8_of_float64 unrepresentable f)).
Proof.
  intros Hwf Hpos Hwide.
  pose proof (RolloutSamples_closed_sent Hwf) as Hmap.
  set (sent := fst (RolloutSamples r advantages)) in *.
  assert (Hhas : Forall (has_features numFeatures) sent).
  { apply Forall_forall. intros s Hs. apply In_nth_error in Hs.
    destruct Hs as [n Hn].
    destruct (map_Some_nth _ _ _ Hmap _ Hn) as [[lane t] [Hp Hs]].
    eapply sample_at_has_features; eauto. eapply nth_error_In; eauto. }
  assert (Hclosed : snd (Uint8Samples unrepresentable numFeatures sent) = Closed).
  { apply Uint8Samples_closes. eapply Forall_impl; [|exact Hhas].
    intros a Ha. now apply quantize_ok. }
  pose proof (Uint8Samples_closed_length _ _ _ Hclosed) as Hlen.
  assert (Hall : AllSamples (fst (Uint8Samples unrepresentable numFeatures sent))
                 = fst (Uint8Samples unrepresentable numFeatures sent))
    by apply (collect_channel _ []).
  rewrite Hall.
  assert (Hcount : length sent = length (present_pairs r)).
  { apply (f_equal (@length _)) in Hmap. now rewrite !length_map in Hmap. }
  split; [exact Hclosed|]. split.
  - rewrite Hlen, Hcount. unfold present_pairs, total_present.
    apply pairs_from_length.
  - intros k lane t Hk.
    assert (Hs : exists s, nth_error sent k = Some s).
    { destruct (nth_error sent k) as [s|] eqn:Hs; [eauto|].
      apply nth_error_None in Hs. rewrite Hcount in Hs.
      apply nth_error_None in Hs. congruence. }
    destruct Hs as [s Hs].
    destruct (map_Some_nth _ _ _ Hmap _ Hs) as [p [Hp Hat]].
    rewrite Hk in Hp. injection Hp as <-.
    assert (Ho : exists o,
               nth_error (fst (Uint8Samples unrepresentable numFeatures sent)) k
               = Some o).
    { destruct (nth_error (fst (Uint8Samples unrepresentable numFeatures sent)) k)
        as [o|] eqn:Ho; [eauto|].
      apply nth_error_None in Ho. rewrite Hlen in Ho.
      apply nth_error_None in Ho. congruence. }
    destruct Ho as [o Ho]. exists s, o.
    split; [exact Hat|]. split; [exact Ho|].
    apply Uint8Samples_nth in Ho. destruct Ho as [inc [Hinc Hq]].
    rewrite Hs in Hinc. injection Hinc as <-.
    apply quantize_inv in Hq. destruct Hq as [_ [features [-> [_ Hfeat]]]].
    split; [reflexivity|]. split.
    + apply sample_at_inv in Hat.
      destruct Hat as [input [output [a [_ [_ [Ha ->]]]]]]. exact Ha.
    + intros idx Hidx. destruct (Hfeat idx Hidx) as [f [Hf Hb]].
      exists f. split; [exact Hf|]. simpl. unfold index. now rewrite Hb.
Qed.

Lemma pipeline_samples_witness :
  well_formed example_rollout example_advantages
  /\ AllSamples
       (fst (Uint8Samples (fun _ => 0%Z) 3
               (fst (RolloutSamples example_rollout example_advantages))))
     = [uint8Sample [1; 2; 3]%Z 1 (fl 10);
        uint8Sample [4; 5; 6]%Z 0 (fl (-2));
        uint8Sample [7; 8; 9]%Z 0 (fl 5)]
  /\ length (AllSamples
               (fst (Uint8Samples (fun _ => 0%Z) 3
                       (fst (RolloutSamples example_rollout example_advantages)))))
     = total_present example_rollout.
Proof.
  assert (Hwf : well_formed example_rollout example_advantages).
  { split; [simpl; lia|]. split; repeat constructor; simpl; discriminate. }
  split; [exact Hwf|]. split; [reflexivity|].
  apply (@pipeline_samples (fun _ => 0%Z) 3 example_rollout example_advantages
           Hwf).
  - lia.
  - repeat constructor.
Defined.

(** * Two more invariants *)

Lemma float_trunc_byte (b : Z) :
  (0 <= b <= 255)%Z -> float_trunc (float64_of_Z b) = Some b.
Proof.
  intros Hb. pose proof (byte_exact_range Hb) as He. unfold byte_exact in He.
  destruct (float64_of_Z b) as [[|]|[|]| |[|] m e]; try discriminate.
  - apply Z.eqb_eq in He. now subst b.
  - destruct (float_trunc (S754_finite false m e)) as [z|]; [|discriminate].
    apply Z.eqb_eq in He. now subst z.
Qed.

(** X12. Every feature that a sample sent by [Uint8Samples] returns is
    the float of an integer of [0, 255]: whatever came in, what goes out
    is byte-valued. *)
Theorem Uint8Samples_byte_valued (unrepresentable : float64 -> Z)
    (numFeatures : Z) (incoming : list Sample) (n : nat) (out : Sample)
    (idx : nat) (g : float64) :
  nth_error (fst (Uint8Samples unrepresentable numFeatures incoming)) n
    = Some out ->
  Feature out idx = Ok g ->
  exists b, (0 <= b <= 255)%Z
            /\ g = float64_of_Z b
            /\ float_trunc g = Some b.
Proof.
  intros Hn Hg. apply Uint8Samples_nth in Hn. destruct Hn as [inc [_ Hq]].
  apply quantize_inv in Hq. destruct Hq as [_ [features [-> [Hlen Hfeat]]]].
  simpl in Hg. unfold index in Hg.
  destruct (nth_error features idx) as [b|] eqn:Hb; [|discriminate].
  simpl in Hg. injection Hg as <-.
  assert (Hlt : idx < Z.to_nat numFeatures).
  { rewrite <- Hlen. apply nth_error_Some. congruence. }
  destruct (Hfeat idx Hlt) as [f [_ Hf]].
  rewrite Hb in Hf. injection Hf as ->.
  pose proof (uint8_range unrepresentable f) as Hr.
  exists (uint8_of_float64 unrepresentable f).
  split; [exact Hr|]. split; [reflexivity|]. now apply float_trunc_byte.
Qed.

Lemma Uint8Samples_byte_valued_witness :
  nth_error
    (fst (Uint8Samples (fun _ => 300%Z) 2
            [memorySample [S754_infinity false; S754_finite true 3 (-1)]
               0 (fl 0)])) 0
    = Some (uint8Sample [44; 44]%Z 0 (fl 0))
  /\ Feature (uint8Sample [44; 44]%Z 0 (fl 0)) 1 = Ok (fl 44)
  /\ exists b, (0 <= b <= 255)%Z
               /\ fl 44 = float64_of_Z b
               /\ float_trunc (fl 44) = Some b.
Proof.
  split; [reflexivity|]. split; [reflexivity|].
  apply (@Uint8Samples_byte_valued (fun _ => 300%Z) 2
           [memorySample [S754_infinity false; S754_finite true 3 (-1)]
              0 (fl 0)] 0 (uint8Sample [44; 44]%Z 0 (fl 0)) 1 (fl 44));
    reflexivity.
Defined.

(** X13. [RolloutSamples] works timestep by timestep: the samples of a
    run on the first batches of the observation tape are sent first,
    unchanged, in the run on the whole tape; and when the run on the
    first batches panics, the run on the whole tape is that same run. *)
Theorem RolloutSamples_prefix (done todo outs : list Batch)
    (advantages : Rewards) :
  (exists later,
      fst (RolloutSamples (mkRolloutSet (done ++ todo) outs) advantages)
      = fst (RolloutSamples (mkRolloutSet done outs) advantages) ++ later)
  /\ (forall p,
        snd (RolloutSamples (mkRolloutSet done outs) advantages) = Panicked p ->
        RolloutSamples (mkRolloutSet (done ++ todo) outs) advantages
        = RolloutSamples (mkRolloutSet done outs) advantages).
Proof.
  unfold RolloutSamples. simpl. rewrite tape_loop_app.
  destruct (tape_loop done outs advantages 0) as [sent [|q]]; simpl.
  - destruct (tape_loop todo _ advantages _) as [later o]. simpl.
    split; [eauto|discriminate].
  - split; [exists []; now rewrite app_nil_r|reflexivity].
Qed.

Lemma RolloutSamples_prefix_witness :
  fst (RolloutSamples
         (mkRolloutSet (firstn 1 (Inputs example_rollout))
            (Actions example_rollout)) example_advantages)
  = [memorySample [fl 1; fl 2; fl 3] 1 (fl 10);
     memorySample [fl 4; fl 5; fl 6] 0 (fl (-2))]
  /\ exists later,
       fst (RolloutSamples
              (mkRolloutSet
                 (firstn 1 (Inputs example_rollout)
                    ++ skipn 1 (Inputs example_rollout))
                 (Actions example_rollout)) example_advantages)
       = fst (RolloutSamples
                (mkRolloutSet (firstn 1 (Inputs example_rollout))
                   (Actions example_rollout)) example_advantages) ++ later.
Proof.
  split; [reflexivity|].
  apply (proj1 (RolloutSamples_prefix (firstn 1 (Inputs example_rollout))
                  (skipn 1 (Inputs example_rollout))
                  (Actions example_rollout) example_advantages)).
Defined.
